(** * Projection and edge scoring engine (engine/pick_engine.py)
      and stats ingestion (data/vlrgg_client.py)

    A shallow embedding of the scoring pipeline and of the row-to-player
    conversion, followed by the properties the specification states about
    them.

    Numbers.  Python's [float] values are modelled by exact rationals [Q]
    (every finite binary64 value is a rational); rounding error, NaN and
    the infinities are outside this model.  The normal CDF, which needs
    [math.erf], lives in the reals [R].  Module [Binary64] repeats the
    numeric core on IEEE binary64 numbers for the worked example.

    Enumerations.  [stat_type] and [risk_mode] are inductive types, as the
    annotation [RiskMode = Literal[...]] and the loop over
    [("kills", "assists")] make them; the labels the classifiers return stay
    the strings of the source.

    Effects.  [build_picks] starts with an HTTP request; the model takes the
    frame that [fetch_vlr_stats] returned as its input. *)

From Stdlib Require Import ZArith QArith Qround Qabs Qminmax Qreals.
From Stdlib Require Import Reals.
From Stdlib Require Floats.
From Stdlib Require Import List String Ascii DecimalString Bool Lia Lra Lqa.
From Stdlib Require Import Sorted Permutation.
Import ListNotations.

Local Open Scope Q_scope.

(** ** Python built-ins used by the engine *)

Module Py.

(** [round(x)] with one argument: nearest integer, ties to the even one. *)
Definition round (x : Q) : Z :=
  let f := Qfloor x in
  match (x - inject_Z f ?= 1 # 2)%Q with
  | Lt => f
  | Gt => (f + 1)%Z
  | Eq => if Z.even f then f else (f + 1)%Z
  end.

(** [max(a, b)] returns [b] only when [b > a]; [min(a, b)] returns [b] only
    when [b < a].  These are [Qmax] and [Qmin] of the Standard Library. *)
Definition max (a b : Q) : Q := Qmax a b.
Definition min (a b : Q) : Q := Qmin a b.

(** [abs(x)]. *)
Definition abs (x : Q) : Q := Qabs x.

(** [a > b], [a >= b], [a <= b] as the booleans Python computes. *)
Definition gtb (a b : Q) : bool := negb (Qle_bool a b).
Definition geb (a b : Q) : bool := Qle_bool b a.
Definition leb (a b : Q) : bool := Qle_bool a b.

End Py.

(** ** Data model *)

(** [stat_type]: the assembler only ever passes ["kills"] and ["assists"]. *)
Inductive StatType : Type := Kills | Assists.

(** [RiskMode = Literal["safe", "standard", "yolo"]]. *)
Inductive RiskMode : Type := Safe | Standard | Yolo.

Definition stat_name (s : StatType) : string :=
  match s with Kills => "kills" | Assists => "assists" end.

(** The player dictionary built by [build_players_from_stats]; the keys
    ["id"], ["handle"], ["team"] and ["role"] are the fields [p_id],
    [p_handle], [p_team] and [p_role]. *)
Record Player : Type := mkPlayer {
  p_id : string;
  p_handle : string;
  p_team : string;
  p_role : string;
  kills_per_map : Q;
  assists_per_map : Q;
  rating : Q;
  kast : Q;
  maps_played : Z;
  consistency : Q
}.

(** ** Projection, line and spread *)

Definition _projection_for_stat (player : Player) (stat_type : StatType) : Q :=
  let base_kills := kills_per_map player in
  let base_assists := assists_per_map player in
  let baseline_rating := 1.0 in
  let baseline_kast := 0.72 in
  let dr := rating player - baseline_rating in
  let dk := kast player - baseline_kast in
  let proj :=
    match stat_type with
    | Kills => base_kills + 4.0 * dr + 10.0 * dk
    | Assists => base_assists + 2.5 * dr + 6.0 * dk
    end in
  Py.max 0.0 proj.

Definition _line_for_stat (player : Player) (stat_type : StatType) : Q :=
  match stat_type with
  | Kills =>
      let base := kills_per_map player in
      inject_Z (Py.round base) + 0.5
  | Assists =>
      let base := assists_per_map player in
      let val := Py.round base in
      Py.max 0.5 (inject_Z val - 0.5)
  end.

Definition _spread_for_stat (player : Player) (stat_type : StatType) : Q :=
  let cons := consistency player in
  let base := match stat_type with Kills => 3.0 | Assists => 2.0 end in
  let adj := base * (1.0 - 0.3 * cons) in
  Py.max 0.5 adj.

(** ** Edge *)

(** The divisor [_edge_score] ends up using: [spread], or [0.5] when
    [spread <= 0]. *)
Definition edge_divisor (spread : Q) : Q :=
  if Py.leb spread 0 then 0.5 else spread.

Definition _edge_score (projection line_value spread : Q) : Q :=
  (projection - line_value) / edge_divisor spread.

(** ** Recommendation and confidence *)

Definition _recommendation_from_edge
    (edge : Q) (risk_mode : RiskMode) (stat_type : StatType) : string :=
  let '(thr_kills, thr_assists) :=
    match risk_mode with
    | Safe => (1.0, 0.9)
    | Standard => (0.7, 0.6)
    | Yolo => (0.4, 0.35)
    end in
  let thr := match stat_type with Kills => thr_kills | Assists => thr_assists end in
  if Py.geb edge thr then "Lean Over"%string
  else if Py.leb edge (- thr) then "Lean Under"%string
  else "Stay Away"%string.

Definition _confidence_from_edge (edge : Q) : string :=
  let mag := Py.abs edge in
  if Py.geb mag 1.5 then "High"%string
  else if Py.geb mag 0.8 then "Medium"%string
  else "Low"%string.

(** The threshold table of the specification, section 4.5. *)
Definition threshold (risk_mode : RiskMode) (stat_type : StatType) : Q :=
  match risk_mode, stat_type with
  | Safe, Kills => 1.0
  | Safe, Assists => 0.9
  | Standard, Kills => 0.7
  | Standard, Assists => 0.6
  | Yolo, Kills => 0.4
  | Yolo, Assists => 0.35
  end.

(** ** The error function and the normal CDF *)

Module Normal.

Import Lra.

Local Open Scope R_scope.

(** [math.erf] is the error function,
    erf x = 2 / sqrt pi * integral of exp (- t * t) for t from 0 to x. *)
Definition gauss (t : R) : R := exp (- (t * t)).

Lemma gauss_derivable : derivable gauss.
Proof. unfold gauss. reg. Qed.

Lemma gauss_continuous : forall x, continuity_pt gauss x.
Proof. intro x. apply derivable_continuous_pt, gauss_derivable. Qed.

Lemma gauss_integrable (a b : R) : Riemann_integrable gauss a b.
Proof.
  destruct (Rle_dec a b) as [H|H].
  - apply continuity_implies_RiemannInt; [exact H | intros; apply gauss_continuous].
  - apply RiemannInt_P1, continuity_implies_RiemannInt;
      [lra | intros; apply gauss_continuous].
Qed.

Definition gauss_int (x : R) : R := RiemannInt (gauss_integrable 0 x).

Definition erf (x : R) : R := 2 / sqrt PI * gauss_int x.

End Normal.

(** ** Probability of going over the line

    The conversion in exact arithmetic, [math.erf] being the error
    function itself.  The code rounds every step to binary64, so what is
    proved of this definition is kept to what rounding preserves: the
    bounds of the clamp, the order of the values (not its strictness) and
    the side of 0.5 the value lies on. *)

Definition _edge_to_probability_over (edge : Q) : R :=
  let z := Q2R edge in
  let prob := (0.5 * (1.0 + Normal.erf (z / sqrt 2)))%R in
  Rmax 0.01 (Rmin 0.99 prob).

(** ** Number formatting of f-strings *)

Module Fmt.

Local Open Scope string_scope.

Definition digit (n : Z) : ascii := ascii_of_nat (48 + Z.to_nat (n mod 10)).

(** The last [d] decimal digits of [n], padded with zeros. *)
Fixpoint frac_digits (d : nat) (n : Z) : string :=
  match d with
  | O => ""
  | S k => frac_digits k (n / 10) ++ String (digit n) ""
  end.

(** [n] units of [10^-d] printed with [d] decimals, after the sign. *)
Definition fixed (neg : bool) (d : nat) (n : Z) : string :=
  let scale := (10 ^ Z.of_nat d)%Z in
  (if neg then "-" else "")
  ++ NilZero.string_of_uint (N.to_uint (Z.to_N (n / scale)))
  ++ match d with O => "" | S _ => "." ++ frac_digits d (n mod scale) end.

(** [f"{x:.df}"] for a float [x]: the exact value rounded to [d] decimals,
    ties to even; the sign of a negative value is kept. *)
Definition format_f (d : nat) (x : Q) : string :=
  fixed (negb (Qle_bool 0 x)) d
        (Py.round (Qabs x * inject_Z (10 ^ Z.of_nat d))).

(** The same rounding on a real number. *)
Definition Rround (x : R) : Z :=
  let f := Int_part x in
  match total_order_T (x - IZR f) (1 / 2) with
  | inleft (left _) => f
  | inleft (right _) => if Z.even f then f else (f + 1)%Z
  | inright _ => (f + 1)%Z
  end.

Definition format_f_R (d : nat) (x : R) : string :=
  fixed (if Rlt_dec x 0 then true else false) d
        (Rround (Rabs x * 10 ^ d)%R).

(** [f"{n}"] for an int. *)
Definition format_int (n : Z) : string := NilZero.string_of_int (Z.to_int n).

End Fmt.

(** ** Explanation text *)

Section Explain.

Local Open Scope string_scope.

Variables (player : Player) (stat_type : StatType).
Variables (line_value projection edge : Q) (probability_over : R).
Variables (recommendation : string) (risk_mode : RiskMode).

Definition explain_direction : string :=
  if Py.gtb projection line_value then "over" else "under".

Definition explain_risk_label : string :=
  match risk_mode with
  | Safe => "conservative"
  | Standard => "balanced"
  | Yolo => "aggressive"
  end.

(** [base]: averages and projection. *)
Definition explain_base : string :=
  let maps := maps_played player in
  let base_val :=
    match stat_type with
    | Kills => kills_per_map player
    | Assists => assists_per_map player
    end in
  String.concat "" [
    p_handle player; " ("; p_team player; " "; p_role player; ") averages about ";
    Fmt.format_f 1 base_val; " "; stat_name stat_type; " per map over ~";
    Fmt.format_int maps; " maps in this window. ";
    "Our projection for this slate is "; Fmt.format_f 1 projection; " ";
    stat_name stat_type; ", ";
    "against a line of "; Fmt.format_f 1 line_value; ", leaning ";
    explain_direction; " by ";
    Fmt.format_f 1 (Py.abs (projection - line_value)); "." ].

(** [context]: rating and KAST. *)
Definition explain_context : string :=
  let rating := rating player in
  let kast := kast player in
  String.concat "" [
    " Their rating is "; Fmt.format_f 2 rating; " with KAST ";
    Fmt.format_f 2 kast; ", ";
    "suggesting ";
    (if Py.geb kast 0.78 then "high consistency" else "some volatility"); "." ].

(** [prob_text]: the probability sentence. *)
Definition explain_prob_text : string :=
  let prob_over_pct := (probability_over * 100.0)%R in
  if (recommendation =? "Lean Over")%string then
    String.concat "" [
      " Interpreting the edge as a rough z-score, this corresponds to about ";
      Fmt.format_f_R 0 prob_over_pct; "% chance to go over the line." ]
  else if (recommendation =? "Lean Under")%string then
    String.concat "" [
      " Interpreting the edge as a rough z-score, this implies about ";
      Fmt.format_f_R 0 (100 - prob_over_pct)%R; "% chance to stay under." ]
  else
    " The edge is small in either direction, so this looks close to a coin flip "
    ++ "under our assumptions.".

(** [rec_text]: the closing sentence. *)
Definition explain_rec_text : string :=
  String.concat "" [
    " Under a **"; explain_risk_label; "** risk profile, we categorize this as ";
    "**"; recommendation; "**, with an edge of "; Fmt.format_f 2 edge;
    " and that implied probability." ].

Definition _explain_pick : string :=
  explain_base ++ explain_context ++ explain_prob_text ++ explain_rec_text.

End Explain.

(** ** Picks *)

Record PickResult : Type := mkPickResult {
  player_id : string;
  player_handle : string;
  team_name : string;
  role : string;
  stat_type : StatType;
  line_value : Q;
  projected_value : Q;
  edge : Q;
  probability_over : R;
  recommendation : string;
  confidence : string;
  explanation : string;
  raw_player : Player
}.

(** [list.sort(key=..., reverse=True)]: a stable sort, largest key first.
    The result of a stable sort does not depend on the algorithm, so
    insertion from the right stands for Python's. *)
Section Sort.

Context {A : Type} (key : A -> Q).

Fixpoint insert_desc (x : A) (l : list A) : list A :=
  match l with
  | [] => [x]
  | y :: l' => if Qle_bool (key y) (key x) then x :: y :: l'
               else y :: insert_desc x l'
  end.

Definition sort_desc (l : list A) : list A := fold_right insert_desc [] l.

End Sort.

(** The body of the double loop of [build_picks]. *)
Definition make_pick (risk_mode : RiskMode) (player : Player) (stat_type : StatType)
    : PickResult :=
  let projection := _projection_for_stat player stat_type in
  let line_value := _line_for_stat player stat_type in
  let spread := _spread_for_stat player stat_type in
  let edge := _edge_score projection line_value spread in
  let prob_over := _edge_to_probability_over edge in
  let rec := _recommendation_from_edge edge risk_mode stat_type in
  let conf := _confidence_from_edge edge in
  let explanation :=
    _explain_pick player stat_type line_value projection edge prob_over rec risk_mode in
  {| player_id := p_id player;
     player_handle := p_handle player;
     team_name := p_team player;
     role := p_role player;
     stat_type := stat_type;
     line_value := line_value;
     projected_value := projection;
     edge := edge;
     probability_over := prob_over;
     recommendation := rec;
     confidence := conf;
     explanation := explanation;
     raw_player := player |}.

(** [picks] before the final sort. *)
Definition picks_in_loop_order (players : list Player) (risk_mode : RiskMode)
    : list PickResult :=
  flat_map (fun player => map (make_pick risk_mode player) [Kills; Assists]) players.

(** [build_picks] from the player list on: steps 3 and 4. *)
Definition build_picks_of_players (players : list Player) (risk_mode : RiskMode)
    : list PickResult :=
  sort_desc (fun p => Py.abs (edge p)) (picks_in_loop_order players risk_mode).

(** ** Ingestion (data/vlrgg_client.py) *)

Module Client.

Local Open Scope string_scope.

Definition EXPECTED_ROUNDS_PER_MAP : Z := 22.

(** [str.strip()], [str.lower()] and [re.sub(r"[^a-z0-9]+", "", s)] on
    ASCII text. *)
Definition is_space (c : ascii) : bool :=
  let n := nat_of_ascii c in
  ((9 <=? n) && (n <=? 13) || (28 <=? n) && (n <=? 32))%nat.

Fixpoint lstrip_chars (l : list ascii) : list ascii :=
  match l with
  | c :: l' => if is_space c then lstrip_chars l' else l
  | [] => []
  end.

Definition strip (s : string) : string :=
  string_of_list_ascii
    (rev (lstrip_chars (rev (lstrip_chars (list_ascii_of_string s))))).

Definition lower_char (c : ascii) : ascii :=
  let n := nat_of_ascii c in
  if ((65 <=? n) && (n <=? 90))%nat then ascii_of_nat (n + 32) else c.

Definition lower (s : string) : string :=
  string_of_list_ascii (map lower_char (list_ascii_of_string s)).

Definition is_lower_alnum (c : ascii) : bool :=
  let n := nat_of_ascii c in
  ((97 <=? n) && (n <=? 122) || (48 <=? n) && (n <=? 57))%nat.

Definition keep_lower_alnum (s : string) : string :=
  string_of_list_ascii (filter is_lower_alnum (list_ascii_of_string s)).

(** [a or b] on strings. *)
Definition str_or (a b : string) : string := if (a =? "")%string then b else a.

(** [re.split(r"[,/]+", s)], empty pieces left out (the caller drops them). *)
Fixpoint split_agents_aux (acc : list ascii) (l : list ascii) : list string :=
  match l with
  | [] => [string_of_list_ascii (rev acc)]
  | c :: l' =>
      if ((c =? ",") || (c =? "/"))%char
      then string_of_list_ascii (rev acc) :: split_agents_aux [] l'
      else split_agents_aux (c :: acc) l'
  end.

Definition split_agents (s : string) : list string :=
  split_agents_aux [] (list_ascii_of_string s).

Definition AGENT_TO_ROLE : list (string * string) :=
  [ ("jett", "duelist"); ("neon", "duelist"); ("raze", "duelist");
    ("yoru", "duelist"); ("iso", "duelist"); ("reyna", "duelist");
    ("waylay", "duelist"); ("pheonix", "duelist");
    ("omen", "controller"); ("clove", "controller"); ("viper", "controller");
    ("brimstone", "controller"); ("harbor", "controller"); ("astra", "controller");
    ("gekko", "initiator"); ("sova", "initiator"); ("fade", "initiator");
    ("kayo", "initiator"); ("breach", "initiator"); ("skye", "initiator");
    ("tejo", "initiator");
    ("cypher", "sentinels"); ("killjoy", "sentinels"); ("vyse", "sentinels");
    ("deadlock", "sentinels"); ("sage", "sentinels"); ("chamber", "sentinels");
    ("veto", "sentinels") ].

Definition agent_role (name : string) : option string :=
  option_map snd (find (fun kv => (fst kv =? name)%string) AGENT_TO_ROLE).

(** The agents cell: a string such as ["Jett, Raze"] or a list of names. *)
Inductive Agents : Type :=
  | AStr (s : string)
  | AList (l : list string).

Definition agents_truthy (a : Agents) : bool :=
  match a with
  | AStr s => negb (s =? "")%string
  | AList l => match l with [] => false | _ :: _ => true end
  end.

Definition _infer_role_from_agents (agents_raw : option Agents) : string :=
  match agents_raw with
  | None => "Unknown"
  | Some a =>
      if negb (agents_truthy a) then "Unknown" else
      let parts := match a with AStr s => split_agents s | AList l => l end in
      let agent_names :=
        map (fun p => lower (strip p))
            (filter (fun p => negb (strip p =? "")%string) parts) in
      match agent_names with
      | [] => "Unknown"
      | _ :: _ =>
          let roles_seen :=
            fold_left
              (fun seen name =>
                 match agent_role name with
                 | Some role =>
                     if negb (role =? "")%string
                        && negb (existsb (String.eqb role) seen)
                     then (seen ++ [role])%list else seen
                 | None => seen
                 end)
              agent_names [] in
          match roles_seen with
          | [] => "Unknown"
          | [r] => r
          | _ :: _ :: _ => "Flex"
          end
      end
  end.

(** One segment of the [/stats] payload: the cells the conversion reads,
    each the JSON string of the API, [None] when the key is absent.  A
    frame stands for a payload whose segments all carry the same keys: a
    key that only some segments lack is a NaN cell in pandas, which is not
    modelled. *)
Record Row : Type := mkRow {
  player : option string;
  org : option string;
  row_rating : option string;
  kills_per_round : option string;
  assists_per_round : option string;
  kill_assists_survived_traded : option string;
  rounds_played : option string;
  agents : option Agents;
  agent : option Agents
}.

Definition DataFrame : Type := list Row.

Fixpoint traverse {A B : Type} (f : A -> option B) (l : list A) : option (list B) :=
  match l with
  | [] => Some []
  | x :: l' =>
      match f x, traverse f l' with
      | Some y, Some ys => Some (y :: ys)
      | _, _ => None
      end
  end.

Section Parsing.

(** [float(s)] on a string: [Some] of the value, [None] when it raises.
    The values are the finite ones; the texts Python reads as a NaN or an
    infinity are outside this model. *)
Variable py_float : string -> option Q.

Definition _float_safe (x : string) (default : Q) : Q :=
  match py_float x with
  | Some v => v
  | None => default
  end.

(** [_float_safe(row.get(key, default), default)]: the default goes through
    [float(str(default))] unchanged. *)
Definition float_safe_get (cell : option string) (default : Q) : Q :=
  match cell with
  | Some x => _float_safe x default
  | None => default
  end.

Definition remove_percent (s : string) : string :=
  string_of_list_ascii
    (filter (fun c => negb (c =? "%")%char) (list_ascii_of_string s)).

Definition _parse_kast (kast_raw : string) : Q :=
  match py_float (remove_percent kast_raw) with
  | Some v => v / 100.0
  | None => 0.70
  end.

(** The body of the loop over rows; [None] is the [KeyError] of
    [row["player"]] or [row["rating"]]. *)
Definition player_of_row (row : Row) : option Player :=
  match player row, row_rating row with
  | Some player_cell, Some rating_cell =>
      let handle := strip player_cell in
      let team :=
        str_or (strip (match org row with Some o => o | None => "" end)) "Unknown" in
      let raw_id := lower (team ++ "_" ++ handle) in
      let player_id := str_or (keep_lower_alnum raw_id) (lower handle) in
      let rating := _float_safe rating_cell 1.0 in
      let kpr := float_safe_get (kills_per_round row) 0.8 in
      let apr := float_safe_get (assists_per_round row) 0.3 in
      let kast :=
        _parse_kast (match kill_assists_survived_traded row with
                     | Some k => k
                     | None => "70%"
                     end) in
      let kills_per_map := (kpr * inject_Z EXPECTED_ROUNDS_PER_MAP)%Q in
      let assists_per_map := (apr * inject_Z EXPECTED_ROUNDS_PER_MAP)%Q in
      let rounds_played :=
        float_safe_get (rounds_played row)
                       (inject_Z (EXPECTED_ROUNDS_PER_MAP * 10)) in
      let maps_played :=
        Z.max 1 (Py.round (rounds_played / inject_Z EXPECTED_ROUNDS_PER_MAP)%Q) in
      let consistency :=
        Py.max 0.0
          (Py.min 1.0
             (0.5 * (kast - 0.65) / 0.15 + 0.5 * (rating - 0.9) / 0.4))%Q in
      let agents_raw :=
        match agents row with
        | Some a => if agents_truthy a then Some a else agent row
        | None => agent row
        end in
      let role := _infer_role_from_agents agents_raw in
      Some {| p_id := player_id;
              p_handle := handle;
              p_team := team;
              p_role := role;
              kills_per_map := kills_per_map;
              assists_per_map := assists_per_map;
              rating := rating;
              kast := kast;
              maps_played := maps_played;
              consistency := consistency |}
  | _, _ => None
  end.

(** [df["rating"].apply(...)], [sort_values(..., ascending=False).head(40)]
    and the loop.  pandas leaves the order of equal ratings open; the
    stable order is taken here, and [FrameFacts.build_players_returns]
    is the conversion with that order left open. *)
Definition build_players_from_stats (df : DataFrame) : option (list Player) :=
  match df with
  | [] => Some []
  | _ :: _ =>
      match traverse
              (fun row =>
                 option_map (fun x => (_float_safe x 1.0, row)) (row_rating row))
              df with
      | None => None
      | Some rated =>
          traverse (fun r => player_of_row (snd r))
                   (firstn 40 (sort_desc fst rated))
      end
  end.

(** [build_picks] on the frame that [fetch_vlr_stats] returned. *)
Definition build_picks (df : DataFrame) (risk_mode : RiskMode)
    : option (list PickResult) :=
  option_map (fun players => build_picks_of_players players risk_mode)
             (build_players_from_stats df).

End Parsing.

(** [float(s)] on plain decimal literals: an optional sign, digits and an
    optional fraction.  Python's [float] accepts more forms (exponents,
    blanks, ["inf"], ["nan"]); the examples below stay within this one. *)
Definition digit_value (c : ascii) : option Z :=
  let n := nat_of_ascii c in
  if ((48 <=? n) && (n <=? 57))%nat then Some (Z.of_nat (n - 48)) else None.

Fixpoint digits_value (acc : Z) (l : list ascii) : option Z :=
  match l with
  | [] => Some acc
  | c :: l' =>
      match digit_value c with
      | Some d => digits_value (10 * acc + d) l'
      | None => None
      end
  end.

Fixpoint split_at_dot (acc : list ascii) (l : list ascii)
    : list ascii * option (list ascii) :=
  match l with
  | [] => (rev acc, None)
  | c :: l' => if (c =? ".")%char then (rev acc, Some l')
               else split_at_dot (c :: acc) l'
  end.

Definition unsigned_decimal (l : list ascii) : option Q :=
  let '(int_part, frac) := split_at_dot [] l in
  let frac_part := match frac with Some f => f | None => [] end in
  match int_part, frac_part with
  | [], [] => None
  | _, _ =>
      match digits_value 0 int_part, digits_value 0 frac_part with
      | Some i, Some f =>
          Some (inject_Z i + inject_Z f / inject_Z (10 ^ Z.of_nat (List.length frac_part)))%Q
      | _, _ => None
      end
  end.

Definition float_of_decimal (s : string) : option Q :=
  match list_ascii_of_string s with
  | "-"%char :: l => option_map Qopp (unsigned_decimal l)
  | "+"%char :: l => unsigned_decimal l
  | l => unsigned_decimal l
  end.

End Client.

(** ** The numeric core in binary64

    The same six functions on IEEE binary64 numbers, the arithmetic Python's
    [float] has, to run the worked example of the specification bit for
    bit. *)

Module Binary64.

Import Stdlib.Floats.Floats.

Set Warnings "-inexact-float".

Local Open Scope float_scope.

(** The exact value of a finite float; [None] for NaN and the infinities. *)
Definition to_Q (x : float) : option Q :=
  match Prim2SF x with
  | S754_zero _ => Some 0%Q
  | S754_finite s m e =>
      Some ((if s then -1 else 1) * inject_Z (Z.pos m) * Qpower 2 e)%Q
  | S754_infinity _ | S754_nan => None
  end.

(** [float(n)] of an int below 2^53 in magnitude. *)
Definition of_int (n : Z) : float :=
  if (n <? 0)%Z then - PrimFloat.of_uint63 (Uint63.of_Z (- n))
  else PrimFloat.of_uint63 (Uint63.of_Z n).

(** [round(x)]; [None] is the error Python raises on NaN and infinities. *)
Definition round (x : float) : option Z := option_map Py.round (to_Q x).

Definition max (a b : float) : float := if a <? b then b else a.

Definition _projection_for_stat
    (base_kills base_assists rating kast : float) (st : StatType) : float :=
  let baseline_rating := 1.0 in
  let baseline_kast := 0.72 in
  let dr := rating - baseline_rating in
  let dk := kast - baseline_kast in
  let proj :=
    match st with
    | Kills => base_kills + 4.0 * dr + 10.0 * dk
    | Assists => base_assists + 2.5 * dr + 6.0 * dk
    end in
  max 0.0 proj.

Definition _line_for_stat (base_kills base_assists : float) (st : StatType)
    : option float :=
  match st with
  | Kills => option_map (fun n => of_int n + 0.5) (round base_kills)
  | Assists => option_map (fun n => max 0.5 (of_int n - 0.5)) (round base_assists)
  end.

Definition _spread_for_stat (cons : float) (st : StatType) : float :=
  let base := match st with Kills => 3.0 | Assists => 2.0 end in
  let adj := base * (1.0 - 0.3 * cons) in
  max 0.5 adj.

Definition _edge_score (projection line_value spread : float) : float :=
  let spread := if spread <=? 0 then 0.5 else spread in
  (projection - line_value) / spread.

Definition _recommendation_from_edge
    (edge : float) (risk_mode : RiskMode) (st : StatType) : string :=
  let '(thr_kills, thr_assists) :=
    match risk_mode with
    | Safe => (1.0, 0.9)
    | Standard => (0.7, 0.6)
    | Yolo => (0.4, 0.35)
    end in
  let thr := match st with Kills => thr_kills | Assists => thr_assists end in
  if thr <=? edge then "Lean Over"%string
  else if edge <=? - thr then "Lean Under"%string
  else "Stay Away"%string.

Definition _confidence_from_edge (edge : float) : string :=
  let mag := abs edge in
  if 1.5 <=? mag then "High"%string
  else if 0.8 <=? mag then "Medium"%string
  else "Low"%string.

End Binary64.

(** * Properties *)

(** ** The error function *)

(** [erf] is increasing, vanishes at 0, and is at least 0.98 from 2 on.
    The last bound compares the integral of [exp (- t * t)] over [0, 2] with
    the integral of a Taylor polynomial that stays below the integrand. *)

Module NormalFacts.

Import Normal Lra.

Local Open Scope R_scope.

(** Partial sums of the exponential series at [- y], with integer
    factorials, and their term-wise antiderivative along [y = x * x]. *)
Fixpoint zfact (n : nat) : Z :=
  match n with O => 1%Z | S k => (Z.of_nat (S k) * zfact k)%Z end.

Definition tcoef (n : nat) : R := (-1) ^ n / IZR (zfact n).

Definition texp_term (n : nat) (y : R) : R := tcoef n * y ^ n.

Fixpoint texp (n : nat) (y : R) : R :=
  match n with O => 1 | S k => texp k y + texp_term (S k) y end.

Definition exp_rem (n : nat) (y : R) : R := exp (- y) - texp n y.

Definition gpoly_term (n : nat) (x : R) : R :=
  tcoef n / INR (S (2 * n)) * x ^ S (2 * n).

Fixpoint gpoly (n : nat) (x : R) : R :=
  match n with O => gpoly_term 0 x | S k => gpoly k x + gpoly_term (S k) x end.

Lemma zfact_pos n : (0 < zfact n)%Z.
Proof.
  induction n as [|n IH]; [reflexivity|].
  change (zfact (S n)) with (Z.of_nat (S n) * zfact n)%Z. apply Z.mul_pos_pos; lia.
Qed.

Lemma IZR_zfact_pos n : 0 < IZR (zfact n).
Proof. apply IZR_lt, zfact_pos. Qed.

Lemma tcoef_S n : tcoef (S n) * INR (S n) = - tcoef n.
Proof.
  unfold tcoef. assert (Hz := IZR_zfact_pos n).
  change (zfact (S n)) with (Z.of_nat (S n) * zfact n)%Z.
  rewrite mult_IZR, <- INR_IZR_INZ.
  assert (HS : 0 < INR (S n)) by (apply lt_0_INR; lia).
  simpl pow. field. lra.
Qed.

Lemma texp_term_deriv n y :
  derivable_pt_lim (texp_term (S n)) y (- texp_term n y).
Proof.
  unfold texp_term.
  replace (- (tcoef n * y ^ n)) with (tcoef (S n) * (INR (S n) * y ^ pred (S n))).
  - apply (derivable_pt_lim_scal (fun y => y ^ S n)), derivable_pt_lim_pow.
  - simpl pred. rewrite <- Rmult_assoc, tcoef_S. ring.
Qed.

Lemma texp_deriv n y : derivable_pt_lim (texp (S n)) y (- texp n y).
Proof.
  induction n as [|n IH].
  - replace (- texp 0 y) with (0 + - texp_term 0 y) by (unfold texp_term, tcoef; simpl; field).
    apply (derivable_pt_lim_plus (fun _ => 1) (texp_term 1)).
    + apply derivable_pt_lim_const.
    + apply texp_term_deriv.
  - replace (- texp (S n) y) with (- texp n y + - texp_term (S n) y) by (simpl; ring).
    apply (derivable_pt_lim_plus (texp (S n)) (texp_term (S (S n)))).
    + exact IH.
    + apply texp_term_deriv.
Qed.

Lemma texp_0 n : texp n 0 = 1.
Proof.
  induction n as [|n IH]; [reflexivity|].
  simpl texp. rewrite IH. unfold texp_term. rewrite pow_i by lia. ring.
Qed.

(** A function whose derivative is non-negative on an interval does not
    decrease across it. *)
Lemma nondecreasing_from_deriv (f f' : R -> R) (a b : R) :
  a <= b ->
  (forall c, a <= c <= b -> derivable_pt_lim f c (f' c)) ->
  (forall c, a < c < b -> 0 <= f' c) ->
  f a <= f b.
Proof.
  intros [Hlt | ->] Hd Hpos; [|lra].
  destruct (MVT_cor2 f f' a b Hlt Hd) as [c [Heq Hc]].
  assert (0 <= f' c * (b - a)) by (apply Rmult_le_pos; [auto | lra]).
  lra.
Qed.

Lemma exp_rem_deriv n y : derivable_pt_lim (exp_rem (S n)) y (- exp_rem n y).
Proof.
  unfold exp_rem.
  replace (- (exp (- y) - texp n y)) with (exp (- y) * -1 - - texp n y) by ring.
  apply (derivable_pt_lim_minus (fun y => exp (- y)) (texp (S n))).
  - apply (derivable_pt_lim_comp (fun y => - y) exp).
    + replace (-1) with (- 1) by ring. apply (derivable_pt_lim_opp id), derivable_pt_lim_id.
    + apply derivable_pt_lim_exp.
  - apply texp_deriv.
Qed.

Lemma exp_rem_0 n : exp_rem n 0 = 0.
Proof. unfold exp_rem. rewrite texp_0, Ropp_0, exp_0. ring. Qed.

Lemma exp_rem_up n :
  (forall y, 0 <= y -> exp_rem n y <= 0) -> forall y, 0 <= y -> 0 <= exp_rem (S n) y.
Proof.
  intros H y Hy. rewrite <- (exp_rem_0 (S n)).
  apply (nondecreasing_from_deriv (exp_rem (S n)) (fun c => - exp_rem n c)); [exact Hy | |].
  - intros c _. apply exp_rem_deriv.
  - intros c Hc. assert (exp_rem n c <= 0) by (apply H; lra). lra.
Qed.

Lemma exp_rem_down n :
  (forall y, 0 <= y -> 0 <= exp_rem n y) -> forall y, 0 <= y -> exp_rem (S n) y <= 0.
Proof.
  intros H y Hy.
  assert (- exp_rem (S n) 0 <= - exp_rem (S n) y).
  { apply (nondecreasing_from_deriv (fun c => - exp_rem (S n) c) (fun c => exp_rem n c)); [exact Hy | |].
    - intros c _. replace (exp_rem n c) with (- - exp_rem n c) by ring.
      apply (derivable_pt_lim_opp (exp_rem (S n))), exp_rem_deriv.
    - intros c Hc. apply H; lra. }
  rewrite exp_rem_0 in H0. lra.
Qed.

Lemma exp_rem_sign n :
  forall y, 0 <= y -> exp_rem (2 * n) y <= 0 /\ 0 <= exp_rem (S (2 * n)) y.
Proof.
  induction n as [|n IH].
  - assert (H0 : forall y, 0 <= y -> exp_rem 0 y <= 0).
    { intros y Hy. unfold exp_rem. simpl texp.
      assert (exp (- y) <= exp 0).
      { destruct Hy as [Hy | <-]; [left; apply exp_increasing; lra | rewrite Ropp_0; lra]. }
      rewrite exp_0 in H. lra. }
    intros y Hy. split; [now apply H0 | now apply exp_rem_up].
  - assert (Hd : forall y, 0 <= y -> exp_rem (2 * S n) y <= 0).
    { replace (2 * S n)%nat with (S (S (2 * n))) by lia.
      apply exp_rem_down. intros y Hy. now apply IH. }
    intros y Hy. split; [now apply Hd | now apply exp_rem_up].
Qed.

Lemma texp_odd_lower n y : 0 <= y -> texp (S (2 * n)) y <= exp (- y).
Proof. intros Hy. destruct (exp_rem_sign n y Hy) as [_ H]. unfold exp_rem in H. lra. Qed.

Lemma gauss_int_0 : gauss_int 0 = 0.
Proof. apply RiemannInt_P9. Qed.

Lemma gauss_int_diff x y :
  gauss_int y - gauss_int x = RiemannInt (gauss_integrable x y).
Proof.
  unfold gauss_int.
  rewrite <- (RiemannInt_P26 (gauss_integrable 0 x) (gauss_integrable x y) (gauss_integrable 0 y)).
  ring.
Qed.

Lemma gauss_pos t : 0 < gauss t.
Proof. apply exp_pos. Qed.

Lemma gauss_int_lower x y (c : R) :
  x <= y -> (forall t, x < t < y -> c <= gauss t) ->
  c * (y - x) <= gauss_int y - gauss_int x.
Proof.
  intros Hxy Hc. rewrite gauss_int_diff.
  rewrite <- (RiemannInt_P15 (RiemannInt_P14 x y c)).
  apply RiemannInt_P19; [exact Hxy|].
  intros t Ht. unfold fct_cte. now apply Hc.
Qed.

Lemma gauss_int_increasing x y : x < y -> gauss_int x < gauss_int y.
Proof.
  intros Hxy.
  pose (m := exp (- (x * x + y * y))).
  assert (Hm : 0 < m) by apply exp_pos.
  assert (H : m * (y - x) <= gauss_int y - gauss_int x).
  { apply gauss_int_lower; [lra|].
    intros t Ht. unfold m, gauss.
    destruct (Rle_dec (- (x * x + y * y)) (- (t * t))) as [Hle|Hn].
    - destruct Hle as [Hlt|Heq]; [left; now apply exp_increasing | right; now rewrite Heq].
    - exfalso. apply Hn.
      destruct (Rle_dec 0 t).
      + assert (t * t <= y * y) by nra. nra.
      + assert (t * t <= x * x) by nra. nra. }
  assert (0 < m * (y - x)) by (apply Rmult_lt_0_compat; lra).
  lra.
Qed.

Lemma gpoly_term_deriv n x :
  derivable_pt_lim (gpoly_term n) x (texp_term n (x * x)).
Proof.
  unfold gpoly_term, texp_term.
  assert (HS : 0 < INR (S (2 * n))) by (apply lt_0_INR; lia).
  replace (tcoef n * (x * x) ^ n)
    with (tcoef n / INR (S (2 * n)) * (INR (S (2 * n)) * x ^ pred (S (2 * n)))).
  - apply (derivable_pt_lim_scal (fun x => x ^ S (2 * n))), derivable_pt_lim_pow.
  - change (pred (S (2 * n))) with (2 * n)%nat. rewrite pow_Rsqr. unfold Rsqr. field. lra.
Qed.

Lemma gpoly_deriv n x : derivable_pt_lim (gpoly n) x (texp n (x * x)).
Proof.
  induction n as [|n IH].
  - replace (texp 0 (x * x)) with (texp_term 0 (x * x))
      by (unfold texp_term, tcoef; simpl; field).
    apply gpoly_term_deriv.
  - simpl texp. apply (derivable_pt_lim_plus (gpoly n) (gpoly_term (S n))).
    + exact IH.
    + apply gpoly_term_deriv.
Qed.

Lemma gpoly_0 n : gpoly n 0 = 0.
Proof.
  induction n as [|n IH]; simpl gpoly; [|rewrite IH];
    unfold gpoly_term; rewrite pow_i by lia; ring.
Qed.

Definition gpoly_derivable (n : nat) : derivable (gpoly n) :=
  fun x => exist _ (texp n (x * x)) (gpoly_deriv n x).

Lemma texp_continuous n : continuity (texp n).
Proof.
  destruct n as [|n]; intro y.
  - apply (continuity_const (fun _ => 1)). intros a b. reflexivity.
  - apply derivable_continuous_pt. exists (- texp n y). apply texp_deriv.
Qed.

Lemma gpoly_derive_continuous n : continuity (derive (gpoly n) (gpoly_derivable n)).
Proof.
  intro x.
  change (continuity_pt (comp (texp n) (fun x => x * x)) x).
  apply continuity_pt_comp.
  - apply derivable_continuous_pt. reg.
  - apply texp_continuous.
Qed.

Definition gpoly_C1 (n : nat) : C1_fun :=
  mkC1 (gpoly_derive_continuous n).

Lemma gauss_int_ge_gpoly n x : 0 <= x -> gpoly (S (2 * n)) x <= gauss_int x.
Proof.
  intros Hx.
  set (m := S (2 * n)).
  pose (pr := RiemannInt_P32 (gpoly_C1 m) 0 x).
  assert (H : RiemannInt pr = gpoly m x - gpoly m 0)
    by apply (FTC_Riemann (gpoly_C1 m) pr).
  rewrite gpoly_0, Rminus_0_r in H. rewrite <- H.
  unfold gauss_int. apply RiemannInt_P19; [exact Hx|].
  intros t Ht. unfold derive, derive_pt, gpoly_derivable; simpl proj1_sig.
  unfold gauss, m. apply texp_odd_lower. nra.
Qed.

Lemma PI_upper : PI <= 3.1421.
Proof.
  destruct (PI_2_3_7_ineq 1) as [_ H].
  unfold sum_f_R0, tg_alt, PI_2_3_7_tg, Ratan_seq in H. simpl in H.
  lra.
Qed.

Lemma gpoly_11_2 : 0.879 <= gpoly 11 2.
Proof.
  unfold gpoly, gpoly_term, tcoef.
  cbn [zfact Z.of_nat Nat.mul Nat.add].
  simpl.
  lra.
Qed.

Lemma sqrt_PI_bounds : 0 < sqrt PI <= 1.7727.
Proof.
  split.
  - apply sqrt_lt_R0, PI_RGT_0.
  - rewrite <- (sqrt_square 1.7727) by lra.
    apply sqrt_le_1_alt. assert (H := PI_upper). lra.
Qed.

Lemma erf_factor_pos : 0 < 2 / sqrt PI.
Proof. destruct sqrt_PI_bounds as [H _]. apply Rdiv_lt_0_compat; lra. Qed.

Lemma erf_0 : erf 0 = 0.
Proof. unfold erf. rewrite gauss_int_0. ring. Qed.

Lemma erf_increasing x y : x < y -> erf x < erf y.
Proof.
  intros H. unfold erf. apply Rmult_lt_compat_l; [apply erf_factor_pos|].
  now apply gauss_int_increasing.
Qed.

Lemma erf_pos x : 0 < x -> 0 < erf x.
Proof. intros H. rewrite <- erf_0. now apply erf_increasing. Qed.

Lemma erf_neg x : x < 0 -> erf x < 0.
Proof. intros H. rewrite <- erf_0. now apply erf_increasing. Qed.

Lemma erf_large x : 2 <= x -> 0.98 <= erf x.
Proof.
  intros Hx.
  assert (H2 : 0.879 <= gauss_int 2).
  { apply Rle_trans with (gpoly 11 2); [apply gpoly_11_2|].
    apply (gauss_int_ge_gpoly 5). lra. }
  assert (Hm : gauss_int 2 <= gauss_int x).
  { destruct Hx as [Hx | <-]; [left; now apply gauss_int_increasing | lra]. }
  destruct sqrt_PI_bounds as [Hs0 Hs1].
  unfold erf.
  apply Rle_trans with (2 / sqrt PI * 0.879).
  - apply (Rmult_le_reg_r (sqrt PI)); [exact Hs0|].
    replace (2 / sqrt PI * 0.879 * sqrt PI) with (2 * 0.879) by (field; lra).
    lra.
  - apply Rmult_le_compat_l; [left; apply erf_factor_pos | lra].
Qed.

End NormalFacts.

(** ** Comparisons and the floor of [max] *)

Lemma geb_true_iff (a b : Q) : Py.geb a b = true <-> b <= a.
Proof. unfold Py.geb. apply Qle_bool_iff. Qed.

Lemma leb_true_iff (a b : Q) : Py.leb a b = true <-> a <= b.
Proof. unfold Py.leb. apply Qle_bool_iff. Qed.

Lemma leb_false_iff (a b : Q) : Py.leb a b = false <-> b < a.
Proof.
  unfold Py.leb. split; intros H.
  - apply Qnot_le_lt. intros Hle. apply Qle_bool_iff in Hle. congruence.
  - destruct (Qle_bool a b) eqn:E; [|reflexivity].
    apply Qle_bool_iff in E. exfalso. apply (Qlt_not_le _ _ H E).
Qed.

Lemma geb_false_iff (a b : Q) : Py.geb a b = false <-> a < b.
Proof. unfold Py.geb. apply (leb_false_iff b a). Qed.

Lemma gtb_true_iff (a b : Q) : Py.gtb a b = true <-> b < a.
Proof.
  unfold Py.gtb. rewrite negb_true_iff. apply (leb_false_iff a b).
Qed.

Lemma max_floor (a b : Q) : a <= Py.max a b.
Proof. apply Q.le_max_l. Qed.

Lemma max_of_larger (a b : Q) : a <= b -> Py.max a b == b.
Proof. intros H. unfold Py.max. now apply Q.max_r. Qed.

(** ** Recommendation and confidence classifiers *)

Ltac split_on_comparisons :=
  repeat match goal with
  | |- context [Py.geb ?a ?b] =>
      let E := fresh "E" in
      destruct (Py.geb a b) eqn:E;
      [apply geb_true_iff in E | apply geb_false_iff in E]
  | |- context [Py.leb ?a ?b] =>
      let E := fresh "E" in
      destruct (Py.leb a b) eqn:E;
      [apply leb_true_iff in E | apply leb_false_iff in E]
  end.

Lemma recommendation_cases (edge : Q) (risk_mode : RiskMode) (st : StatType) :
  let thr := threshold risk_mode st in
  (thr <= edge /\ _recommendation_from_edge edge risk_mode st = "Lean Over"%string) \/
  (edge <= - thr /\ _recommendation_from_edge edge risk_mode st = "Lean Under"%string) \/
  (- thr < edge < thr /\ _recommendation_from_edge edge risk_mode st = "Stay Away"%string).
Proof.
  destruct risk_mode, st; cbn -[Py.geb Py.leb Qle Qlt Qopp];
    split_on_comparisons; auto.
Qed.

Lemma threshold_pos (risk_mode : RiskMode) (st : StatType) : 0 < threshold risk_mode st.
Proof. destruct risk_mode, st; reflexivity. Qed.

(** C3: the classifier returns "Lean Over" exactly when the edge reaches the
    threshold of the posture and category, "Lean Under" exactly when it is at
    most minus the threshold, and "Stay Away" otherwise; the thresholds are
    those of the table, kills above assists at every posture, and
    yolo < standard < safe for each category. *)
Theorem recommendation_follows_threshold_table
    (edge : Q) (risk_mode : RiskMode) (st : StatType) :
  (_recommendation_from_edge edge risk_mode st = "Lean Over"%string
     <-> threshold risk_mode st <= edge) /\
  (_recommendation_from_edge edge risk_mode st = "Lean Under"%string
     <-> edge <= - threshold risk_mode st) /\
  (_recommendation_from_edge edge risk_mode st = "Stay Away"%string
     <-> ~ threshold risk_mode st <= edge /\ ~ edge <= - threshold risk_mode st) /\
  (threshold Safe Kills == 1.0 /\ threshold Safe Assists == 0.9 /\
   threshold Standard Kills == 0.7 /\ threshold Standard Assists == 0.6 /\
   threshold Yolo Kills == 0.4 /\ threshold Yolo Assists == 0.35) /\
  threshold risk_mode Assists < threshold risk_mode Kills /\
  threshold Yolo st < threshold Standard st /\
  threshold Standard st < threshold Safe st.
Proof.
  assert (Hpos := threshold_pos risk_mode st).
  destruct (recommendation_cases edge risk_mode st) as [[H ->] | [[H ->] | [H ->]]];
    (repeat split; try discriminate; try (intros; lra); try reflexivity;
     try (intros [? ?]; lra); try (destruct risk_mode; reflexivity);
     try (destruct st; reflexivity)).
Qed.

Lemma confidence_cases (edge : Q) :
  (1.5 <= Qabs edge /\ _confidence_from_edge edge = "High"%string) \/
  (0.8 <= Qabs edge < 1.5 /\ _confidence_from_edge edge = "Medium"%string) \/
  (Qabs edge < 0.8 /\ _confidence_from_edge edge = "Low"%string).
Proof.
  unfold _confidence_from_edge, Py.abs. cbn zeta.
  split_on_comparisons; auto.
Qed.

(** C8: a "High" confidence (|edge| >= 1.5) is never a "Stay Away": the
    recommendation is then "Lean Over" or "Lean Under" under every posture
    and for both categories. *)
Theorem high_confidence_is_a_lean
    (edge : Q) (risk_mode : RiskMode) (st : StatType) :
  _confidence_from_edge edge = "High"%string ->
  1.5 <= Qabs edge /\
  _recommendation_from_edge edge risk_mode st <> "Stay Away"%string /\
  (_recommendation_from_edge edge risk_mode st = "Lean Over"%string \/
   _recommendation_from_edge edge risk_mode st = "Lean Under"%string).
Proof.
  intros Hhigh.
  destruct (confidence_cases edge) as [[Hmag _] | [[_ H] | [_ H]]];
    [| rewrite H in Hhigh; discriminate ..].
  assert (Hthr : threshold risk_mode st <= 1.0) by (destruct risk_mode, st; apply Qle_bool_imp_le; reflexivity).
  destruct (recommendation_cases edge risk_mode st) as [[_ ->] | [[_ ->] | [[Hlo Hhi] _]]].
  - split; [exact Hmag | split; [discriminate | now left]].
  - split; [exact Hmag | split; [discriminate | now right]].
  - exfalso. revert Hmag. apply Qabs_case; intros; lra.
Qed.

Lemma high_confidence_is_a_lean_witness :
  _confidence_from_edge 2 = "High"%string /\
  _recommendation_from_edge 2 Safe Kills <> "Stay Away"%string.
Proof.
  split; [reflexivity|].
  apply (high_confidence_is_a_lean 2 Safe Kills). reflexivity.
Defined.

(** X3: the confidence tier depends on the magnitude of the edge only. *)
Lemma confidence_symmetric (edge : Q) :
  _confidence_from_edge (- edge) = _confidence_from_edge edge.
Proof.
  unfold _confidence_from_edge, Py.abs, Py.geb. cbn zeta.
  now rewrite !(Qleb_comp _ _ (Qeq_refl _) _ _ (Qabs_opp edge)).
Qed.

(** ** Spread and edge *)

Lemma spread_floor (player : Player) (st : StatType) :
  0.5 <= _spread_for_stat player st.
Proof. unfold _spread_for_stat. apply max_floor. Qed.

Lemma edge_divisor_pos (spread : Q) : 0 < edge_divisor spread.
Proof.
  unfold edge_divisor.
  destruct (Py.leb spread 0) eqn:E; [reflexivity | now apply leb_false_iff in E].
Qed.

(** C6: with consistency in [0,1] the spread is at least 0.5, hence
    positive; the branch of [_edge_score] that replaces a spread <= 0 is not
    taken on it, so the edge is (projection - line) / spread with the spread
    itself, a positive number, as divisor.  On such a record the floor is not
    even reached: the spread is base * (1 - 0.3 * consistency). *)
Theorem spread_is_a_positive_divisor (player : Player) (st : StatType) :
  0 <= consistency player <= 1 ->
  let spread := _spread_for_stat player st in
  0.5 <= spread /\
  0 < spread /\
  Py.leb spread 0 = false /\
  edge_divisor spread = spread /\
  (forall projection line_value,
     _edge_score projection line_value spread = (projection - line_value) / spread) /\
  spread ==
    (match st with Kills => 3.0 | Assists => 2.0 end) * (1.0 - 0.3 * consistency player).
Proof.
  intros Hc spread.
  assert (Hfloor : 0.5 <= spread) by apply spread_floor.
  assert (Hpos : 0 < spread) by lra.
  assert (Hleb : Py.leb spread 0 = false) by now apply leb_false_iff.
  assert (Hdiv : edge_divisor spread = spread) by (unfold edge_divisor; now rewrite Hleb).
  repeat split; try assumption.
  - intros projection line_value. unfold _edge_score. now rewrite Hdiv.
  - unfold spread, _spread_for_stat. apply max_of_larger. destruct st; lra.
Qed.

Lemma spread_is_a_positive_divisor_witness :
  0 <= 0.5 <= 1 /\
  _edge_score 22.5 20.5
    (_spread_for_stat (mkPlayer "" "" "" "" 20 4 1.3 0.85 10 0.5) Kills) =
  (22.5 - 20.5) / _spread_for_stat (mkPlayer "" "" "" "" 20 4 1.3 0.85 10 0.5) Kills.
Proof.
  assert (H : 0 <= consistency (mkPlayer "" "" "" "" 20 4 1.3 0.85 10 0.5) <= 1)
    by (split; discriminate).
  split; [exact H|].
  apply (spread_is_a_positive_divisor (mkPlayer "" "" "" "" 20 4 1.3 0.85 10 0.5) Kills H).
Defined.

(** The guard of [_edge_score] makes the divisor positive for any spread. *)
Lemma edge_score_divides_by_positive (projection line_value spread : Q) :
  exists d, 0 < d /\ _edge_score projection line_value spread = (projection - line_value) / d.
Proof. exists (edge_divisor spread). split; [apply edge_divisor_pos | reflexivity]. Qed.

(** ** The worked example of the specification *)

(** C1: kills baseline 20, rating 1.3, KAST 0.85, consistency 0.5 give
    projection 22.5, line 20.5, spread 2.55, edge 40/51 (0.784 to three
    decimals), "Lean Over" under the standard posture and confidence "Low". *)
Theorem worked_example_kills
    (pid handle team role : string) (assists : Q) (maps : Z) :
  let player := mkPlayer pid handle team role 20 assists 1.3 0.85 maps 0.5 in
  let projection := _projection_for_stat player Kills in
  let line_value := _line_for_stat player Kills in
  let spread := _spread_for_stat player Kills in
  let edge := _edge_score projection line_value spread in
  projection == 22.5 /\
  Py.round 20 = 20%Z /\
  line_value == 20.5 /\
  spread == 2.55 /\
  edge == 40 # 51 /\
  0.7835 <= edge < 0.7845 /\
  0.7 <= edge < 0.8 /\
  _recommendation_from_edge edge Standard Kills = "Lean Over"%string /\
  _confidence_from_edge edge = "Low"%string.
Proof.
  cbv zeta. repeat split; try reflexivity; try discriminate.
Qed.

(** The other worked example: kills baseline 5.0, rating 1.0, KAST 0.72 and
    consistency 0.0 give projection 5.0, line 5.5, spread 3.0, edge -1/6,
    "Stay Away" under the standard posture and confidence "Low". *)
Example worked_example_average_player
    (pid handle team role : string) (assists : Q) (maps : Z) :
  let player := mkPlayer pid handle team role 5.0 assists 1.0 0.72 maps 0.0 in
  let projection := _projection_for_stat player Kills in
  let line_value := _line_for_stat player Kills in
  let spread := _spread_for_stat player Kills in
  let edge := _edge_score projection line_value spread in
  projection == 5.0 /\
  line_value == 5.5 /\
  spread == 3.0 /\
  edge == - (1 # 6) /\
  _recommendation_from_edge edge Standard Kills = "Stay Away"%string /\
  _confidence_from_edge edge = "Low"%string.
Proof.
  cbv zeta. repeat split; reflexivity.
Qed.

Module Binary64Facts.

Import Stdlib.Floats.Floats.

Set Warnings "-inexact-float".

(** The same example run in binary64: the projection, the line and the
    spread are the floats 22.5, 20.5 and 2.55, and the labels agree with the
    exact computation. *)
Example worked_example_kills_binary64 :
  let projection := Binary64._projection_for_stat 20 4.4 1.3 0.85 Kills in
  let spread := Binary64._spread_for_stat 0.5 Kills in
  let edge := Binary64._edge_score projection 20.5 spread in
  projection = 22.5%float /\
  Binary64._line_for_stat 20 4.4 Kills = Some 20.5%float /\
  spread = 2.55%float /\
  PrimFloat.leb 0.784 edge = true /\
  PrimFloat.ltb edge 0.785 = true /\
  Binary64._recommendation_from_edge edge Standard Kills = "Lean Over"%string /\
  Binary64._confidence_from_edge edge = "Low"%string.
Proof. vm_compute. repeat split; reflexivity. Qed.

End Binary64Facts.

(** ** Explanation text *)

Section ExplainFacts.

Local Open Scope string_scope.

Variables (player : Player) (st : StatType).
Variables (line projection edge_value : Q) (risk_mode : RiskMode).

(** The opening sentence up to the direction word, and after it. *)
Definition opening_before_direction : string :=
  String.concat "" [
    p_handle player; " ("; p_team player; " "; p_role player; ") averages about ";
    Fmt.format_f 1 (match st with
                    | Kills => kills_per_map player
                    | Assists => assists_per_map player
                    end);
    " "; stat_name st; " per map over ~";
    Fmt.format_int (maps_played player); " maps in this window. ";
    "Our projection for this slate is "; Fmt.format_f 1 projection; " ";
    stat_name st; ", ";
    "against a line of "; Fmt.format_f 1 line; ", leaning " ].

Definition opening_after_direction : string :=
  " by " ++ Fmt.format_f 1 (Py.abs (projection - line)) ++ ".".

Lemma append_assoc (a b c : string) : (a ++ b) ++ c = a ++ (b ++ c).
Proof. induction a as [|ch a IH]; simpl; [reflexivity | now rewrite IH]. Qed.

Lemma explain_base_split :
  explain_base player st line projection =
  opening_before_direction ++ explain_direction line projection
    ++ opening_after_direction.
Proof.
  unfold explain_base, opening_before_direction, opening_after_direction.
  cbv zeta. cbn [String.concat].
  rewrite !append_assoc. cbn [append].
  reflexivity.
Qed.

Lemma direction_over_iff :
  explain_direction line projection = "over" <-> (line < projection)%Q.
Proof.
  unfold explain_direction. destruct (Py.gtb projection line) eqn:E.
  - apply gtb_true_iff in E. tauto.
  - split; [discriminate|]. intros H. apply gtb_true_iff in H. congruence.
Qed.

End ExplainFacts.

(** C10: when the projection equals the line the opening sentence says
    "leaning under"; "over" is the direction only for a projection strictly
    above the line. *)
Theorem tie_leans_under
    (player : Player) (st : StatType) (line projection : Q) :
  projection == line ->
  explain_direction line projection = "under"%string /\
  explain_base player st line projection =
    (opening_before_direction player st line projection ++ "under"
       ++ opening_after_direction line projection)%string /\
  (forall edge_value probability recommendation risk_mode,
     _explain_pick player st line projection edge_value probability
                   recommendation risk_mode =
     ((opening_before_direction player st line projection ++ "under"
         ++ opening_after_direction line projection)
      ++ explain_context player
      ++ explain_prob_text probability recommendation
      ++ explain_rec_text edge_value recommendation risk_mode)%string) /\
  (forall other, explain_direction line other = "over"%string <-> line < other).
Proof.
  intros Heq.
  assert (Hdir : explain_direction line projection = "under"%string).
  { unfold explain_direction. destruct (Py.gtb projection line) eqn:E; [|reflexivity].
    apply gtb_true_iff in E. lra. }
  assert (Hbase := explain_base_split player st line projection).
  rewrite Hdir in Hbase.
  repeat split.
  - exact Hdir.
  - exact Hbase.
  - intros. unfold _explain_pick. now rewrite Hbase.
  - apply direction_over_iff.
  - apply direction_over_iff.
Qed.

Lemma tie_leans_under_witness :
  20.5 == 20.5 /\ explain_direction 20.5 20.5 = "under"%string.
Proof.
  split; [reflexivity|].
  apply (tie_leans_under (mkPlayer "" "" "" "" 20 4 1.3 0.85 10 0.5) Kills 20.5 20.5).
  reflexivity.
Defined.

(** C7: the probability sentence cites the Over probability (in percent)
    for "Lean Over", 100 minus it for "Lean Under", and is the fixed
    "close to a coin flip" sentence, with no figure in it, for "Stay Away"
    (and for any other label). *)
Theorem probability_sentence_follows_recommendation
    (player : Player) (st : StatType) (line projection edge_value : Q)
    (probability : R) (recommendation : string) (risk_mode : RiskMode) :
  _explain_pick player st line projection edge_value probability
                recommendation risk_mode =
    (explain_base player st line projection
     ++ explain_context player
     ++ explain_prob_text probability recommendation
     ++ explain_rec_text edge_value recommendation risk_mode)%string /\
  (recommendation = "Lean Over"%string ->
   explain_prob_text probability recommendation =
     (" Interpreting the edge as a rough z-score, this corresponds to about "
      ++ Fmt.format_f_R 0 (probability * 100)
      ++ "% chance to go over the line.")%string) /\
  (recommendation = "Lean Under"%string ->
   explain_prob_text probability recommendation =
     (" Interpreting the edge as a rough z-score, this implies about "
      ++ Fmt.format_f_R 0 (100 - probability * 100)
      ++ "% chance to stay under.")%string) /\
  (recommendation <> "Lean Over"%string ->
   recommendation <> "Lean Under"%string ->
   explain_prob_text probability recommendation =
     " The edge is small in either direction, so this looks close to a coin flip under our assumptions."%string
   /\ (forall other_probability,
         explain_prob_text other_probability recommendation =
         explain_prob_text probability recommendation)
   /\ (forall other_probability,
         _explain_pick player st line projection edge_value other_probability
                       recommendation risk_mode =
         _explain_pick player st line projection edge_value probability
                       recommendation risk_mode)) /\
  ("Stay Away" <> "Lean Over" /\ "Stay Away" <> "Lean Under")%string.
Proof.
  split; [reflexivity|]. split; [|split; [|split]].
  - intros ->. unfold explain_prob_text. cbn [String.eqb Ascii.eqb Bool.eqb String.concat].
    replace (probability * 100.0)%R with (probability * 100)%R by Lra.lra.
    cbn [append]. reflexivity.
  - intros ->. unfold explain_prob_text. cbn [String.eqb Ascii.eqb Bool.eqb String.concat].
    replace (probability * 100.0)%R with (probability * 100)%R by Lra.lra.
    cbn [append]. reflexivity.
  - intros Hover Hunder.
    apply String.eqb_neq in Hover. apply String.eqb_neq in Hunder.
    unfold _explain_pick, explain_prob_text. rewrite Hover, Hunder.
    split; [reflexivity | split; intros; reflexivity].
  - split; discriminate.
Qed.

Lemma probability_sentence_follows_recommendation_witness :
  "Stay Away"%string <> "Lean Over"%string /\
  "Stay Away"%string <> "Lean Under"%string /\
  explain_prob_text 0.5 "Stay Away" =
  " The edge is small in either direction, so this looks close to a coin flip under our assumptions."%string.
Proof.
  split; [discriminate|]. split; [discriminate|].
  apply (probability_sentence_follows_recommendation
           (mkPlayer "" "" "" "" 20 4 1.3 0.85 10 0.5) Kills 20.5 20.5 0 0.5
           "Stay Away" Standard); discriminate.
Defined.

(** ** The final sort *)

Section SortFacts.

Context {A : Type} (key : A -> Q).

(** [a] may stand before [b] in a list sorted largest key first. *)
Definition desc_by (a b : A) : Prop := key b <= key a.

Lemma insert_desc_perm (x : A) (l : list A) :
  Permutation (insert_desc key x l) (x :: l).
Proof.
  induction l as [|y l IH]; simpl.
  - apply Permutation_refl.
  - destruct (Qle_bool (key y) (key x)).
    + apply Permutation_refl.
    + apply perm_trans with (y :: x :: l); [now apply perm_skip | apply perm_swap].
Qed.

Lemma sort_desc_perm (l : list A) : Permutation (sort_desc key l) l.
Proof.
  induction l as [|x l IH]; simpl.
  - apply perm_nil.
  - apply perm_trans with (x :: sort_desc key l);
      [apply insert_desc_perm | now apply perm_skip].
Qed.

Lemma sort_desc_length (l : list A) : List.length (sort_desc key l) = List.length l.
Proof. apply Permutation_length, sort_desc_perm. Qed.

Lemma insert_desc_hd (x y : A) (l : list A) :
  key x <= key y -> HdRel desc_by y l -> HdRel desc_by y (insert_desc key x l).
Proof.
  intros Hxy Hhd. destruct l as [|z l]; simpl.
  - now constructor.
  - destruct (Qle_bool (key z) (key x)); constructor; auto.
    now inversion Hhd.
Qed.

Lemma insert_desc_sorted (x : A) (l : list A) :
  Sorted desc_by l -> Sorted desc_by (insert_desc key x l).
Proof.
  induction 1 as [|y l Hs IH Hhd]; simpl.
  - repeat constructor.
  - destruct (Qle_bool (key y) (key x)) eqn:E.
    + apply Qle_bool_iff in E. repeat constructor; assumption.
    + constructor; [exact IH|].
      apply insert_desc_hd; [|exact Hhd].
      apply Qlt_le_weak, Qnot_le_lt. intros Hle.
      apply Qle_bool_iff in Hle. congruence.
Qed.

Lemma sort_desc_sorted (l : list A) : Sorted desc_by (sort_desc key l).
Proof.
  induction l as [|x l IH]; simpl; [constructor | now apply insert_desc_sorted].
Qed.

(** The sort is stable: elements of equal key keep their order. *)
Lemma insert_desc_stable (k : Q) (x : A) (l : list A) :
  filter (fun a => Qeq_bool (key a) k) (insert_desc key x l) =
  filter (fun a => Qeq_bool (key a) k) (x :: l).
Proof.
  induction l as [|y l IH]; [reflexivity|].
  cbn [insert_desc]. destruct (Qle_bool (key y) (key x)) eqn:E; [reflexivity|].
  cbn [filter] in *. rewrite IH.
  destruct (Qeq_bool (key x) k) eqn:Ex, (Qeq_bool (key y) k) eqn:Ey; try reflexivity.
  exfalso. apply Qeq_bool_iff in Ex, Ey.
  assert (Hle : key y <= key x) by (rewrite Ex, Ey; apply Qle_refl).
  apply Qle_bool_iff in Hle. congruence.
Qed.

(** X2: the sort is stable: the elements of any one key keep the order
    they came in, so picks of equal absolute edge keep the order of the
    loop of [build_picks]. *)
Lemma sort_desc_stable (k : Q) (l : list A) :
  filter (fun a => Qeq_bool (key a) k) (sort_desc key l) =
  filter (fun a => Qeq_bool (key a) k) l.
Proof.
  induction l as [|x l IH]; [reflexivity|].
  cbn [sort_desc fold_right]. rewrite insert_desc_stable.
  cbn [filter]. fold (sort_desc key l). now rewrite IH.
Qed.

End SortFacts.

Lemma sorted_adjacent {A : Type} (R : A -> A -> Prop) (l : list A) :
  Sorted R l ->
  forall i a b, nth_error l i = Some a -> nth_error l (S i) = Some b -> R a b.
Proof.
  induction 1 as [|x l Hs IH Hhd]; intros i a b Ha Hb.
  - destruct i; discriminate.
  - destruct i as [|i].
    + cbn in Ha, Hb. injection Ha as <-.
      destruct l as [|y l]; [discriminate|].
      cbn in Hb. injection Hb as <-. now inversion Hhd.
    + exact (IH i a b Ha Hb).
Qed.

Lemma picks_in_loop_order_length (players : list Player) (risk_mode : RiskMode) :
  List.length (picks_in_loop_order players risk_mode) = (2 * List.length players)%nat.
Proof.
  unfold picks_in_loop_order.
  induction players as [|p players IH]; [reflexivity|].
  cbn [flat_map]. rewrite length_app, IH. cbn [map List.length]. lia.
Qed.

(** C4: the assembler returns two picks per player, whatever the posture
    (the output is a rearrangement of the kills and assists picks of every
    player), and every adjacent pair of the output is in descending order
    of absolute edge. *)
Theorem build_picks_two_per_player_sorted
    (players : list Player) (risk_mode : RiskMode) :
  let out := build_picks_of_players players risk_mode in
  List.length out = (2 * List.length players)%nat /\
  Permutation out
    (flat_map (fun p => [make_pick risk_mode p Kills; make_pick risk_mode p Assists])
              players) /\
  (forall p st, In p players -> In (make_pick risk_mode p st) out) /\
  (forall i a b,
     nth_error out i = Some a -> nth_error out (S i) = Some b ->
     Qabs (edge b) <= Qabs (edge a)).
Proof.
  cbv zeta. unfold build_picks_of_players.
  assert (Hperm := sort_desc_perm (fun p => Py.abs (edge p))
                                  (picks_in_loop_order players risk_mode)).
  repeat split.
  - rewrite sort_desc_length. apply picks_in_loop_order_length.
  - exact Hperm.
  - intros p st Hin. apply (Permutation_in _ (Permutation_sym Hperm)).
    unfold picks_in_loop_order. apply in_flat_map. exists p. split; [exact Hin|].
    destruct st; cbn; auto.
  - intros i a b Ha Hb.
    exact (sorted_adjacent _ _ (sort_desc_sorted _ _) i a b Ha Hb).
Qed.

Definition example_players : list Player :=
  [ mkPlayer "sen_tenz" "TenZ" "SEN" "duelist" 20 4.4 1.3 0.85 12 0.5;
    mkPlayer "nrg_s0m" "s0m" "NRG" "controller" 5.0 3 1.0 0.72 3 0.0 ].

Lemma build_picks_two_per_player_sorted_witness :
  List.length (build_picks_of_players example_players Standard) = 4%nat /\
  Qabs (edge (make_pick Standard (nth 0 example_players (mkPlayer "" "" "" "" 0 0 0 0 0 0)) Kills))
  <= Qabs (edge (make_pick Standard (nth 0 example_players (mkPlayer "" "" "" "" 0 0 0 0 0 0)) Assists)).
Proof.
  destruct (build_picks_two_per_player_sorted example_players Standard)
    as [Hlen [_ [_ Hadj]]].
  split; [exact Hlen|].
  apply (Hadj 0%nat); reflexivity.
Defined.

(** ** Probability of going over *)

(** The normal CDF as [_edge_to_probability_over] computes it before the
    clamp. *)
Definition normal_cdf (z : R) : R := (0.5 * (1.0 + Normal.erf (z / sqrt 2)))%R.

Module ProbabilityFacts.

Import Lra.

Local Open Scope R_scope.

Lemma probability_is_clamped_cdf (edge : Q) :
  _edge_to_probability_over edge = Rmax 0.01 (Rmin 0.99 (normal_cdf (Q2R edge))).
Proof. reflexivity. Qed.

Lemma sqrt2_bounds : 0 < sqrt 2 <= 1.5.
Proof.
  split.
  - apply sqrt_lt_R0. lra.
  - rewrite <- (sqrt_square 1.5) by lra. apply sqrt_le_1_alt. lra.
Qed.

Lemma normal_cdf_increasing (x y : R) : x < y -> normal_cdf x < normal_cdf y.
Proof.
  intros H. unfold normal_cdf.
  assert (He : Normal.erf (x / sqrt 2) < Normal.erf (y / sqrt 2)).
  { apply NormalFacts.erf_increasing. destruct sqrt2_bounds as [Hs _].
    apply Rmult_lt_compat_r; [now apply Rinv_0_lt_compat | exact H]. }
  lra.
Qed.

Lemma normal_cdf_0 : normal_cdf 0 = 0.5.
Proof.
  unfold normal_cdf. replace (0 / sqrt 2) with 0 by (unfold Rdiv; ring).
  rewrite NormalFacts.erf_0. lra.
Qed.

Lemma normal_cdf_large (z : R) : 3 <= z -> 0.99 <= normal_cdf z.
Proof.
  intros Hz. unfold normal_cdf. destruct sqrt2_bounds as [Hs0 Hs1].
  assert (H2 : 2 <= z / sqrt 2).
  { apply (Rmult_le_reg_r (sqrt 2)); [exact Hs0|].
    replace (z / sqrt 2 * sqrt 2) with z by (field; lra). lra. }
  assert (He := NormalFacts.erf_large _ H2). lra.
Qed.

(** The clamp [max(0.01, min(0.99, x))]. *)
Definition clamp (x : R) : R := Rmax 0.01 (Rmin 0.99 x).

Lemma clamp_cases (x : R) :
  (x <= 0.01 /\ clamp x = 0.01) \/
  (0.01 <= x <= 0.99 /\ clamp x = x) \/
  (0.99 <= x /\ clamp x = 0.99).
Proof.
  unfold clamp, Rmax, Rmin.
  destruct (Rle_dec 0.99 x); destruct (Rle_dec 0.01 _); lra.
Qed.

Lemma probability_bounds (edge : Q) :
  0.01 <= _edge_to_probability_over edge <= 0.99.
Proof.
  rewrite probability_is_clamped_cdf.
  destruct (clamp_cases (normal_cdf (Q2R edge))) as [[? H] | [[? H] | [? H]]];
    unfold clamp in H; rewrite H; lra.
Qed.

Lemma probability_monotone (e1 e2 : Q) :
  (e1 < e2)%Q ->
  _edge_to_probability_over e1 <= _edge_to_probability_over e2.
Proof.
  intros Hlt. apply Qlt_Rlt in Hlt. apply normal_cdf_increasing in Hlt.
  rewrite !probability_is_clamped_cdf.
  destruct (clamp_cases (normal_cdf (Q2R e1))) as [[? H1] | [[? H1] | [? H1]]];
  destruct (clamp_cases (normal_cdf (Q2R e2))) as [[? H2] | [[? H2] | [? H2]]];
    unfold clamp in H1, H2; rewrite H1, H2; lra.
Qed.

Lemma probability_saturates (edge : Q) :
  (3 <= edge)%Q -> _edge_to_probability_over edge = 0.99.
Proof.
  intros H. apply Qle_Rle in H.
  replace (Q2R 3) with 3 in H by (unfold Q2R; simpl; lra).
  apply normal_cdf_large in H.
  rewrite probability_is_clamped_cdf.
  destruct (clamp_cases (normal_cdf (Q2R edge))) as [[? H1] | [[? H1] | [? H1]]];
    unfold clamp in H1; rewrite H1; lra.
Qed.

Lemma probability_side (edge : Q) :
  ((0 < edge)%Q -> 0.5 < _edge_to_probability_over edge) /\
  ((edge < 0)%Q -> _edge_to_probability_over edge < 0.5).
Proof.
  assert (H0 : Q2R 0 = 0) by (unfold Q2R; simpl; lra).
  rewrite probability_is_clamped_cdf.
  split; intros H; apply Qlt_Rlt in H; rewrite H0 in H;
    apply normal_cdf_increasing in H; rewrite normal_cdf_0 in H;
    destruct (clamp_cases (normal_cdf (Q2R edge))) as [[? H1] | [[? H1] | [? H1]]];
    unfold clamp in H1; rewrite H1; lra.
Qed.

(** An edge of 0 is an even chance. *)
Lemma probability_at_zero : _edge_to_probability_over 0 = 0.5.
Proof.
  rewrite probability_is_clamped_cdf.
  replace (Q2R 0) with 0 by (unfold Q2R; simpl; lra).
  rewrite normal_cdf_0.
  destruct (clamp_cases 0.5) as [[? H1] | [[? H1] | [? H1]]];
    unfold clamp in H1; rewrite H1; lra.
Qed.

End ProbabilityFacts.

(** C2, as amended: the probability of going over lies in [0.01, 0.99] and
    is non-decreasing in the edge.  Nothing strict is stated: the clamp
    flattens both tails, and between the bounds the rounding of the code
    can send two close edges to one value. *)
Theorem probability_over_bounded_and_monotone :
  (forall edge : Q,
     (0.01 <= _edge_to_probability_over edge <= 0.99)%R) /\
  (forall e1 e2 : Q,
     e1 < e2 -> (_edge_to_probability_over e1 <= _edge_to_probability_over e2)%R).
Proof.
  split; [exact ProbabilityFacts.probability_bounds|].
  intros e1 e2 H. now apply ProbabilityFacts.probability_monotone.
Qed.

Lemma probability_over_bounded_and_monotone_witness :
  0 < 1 /\ (_edge_to_probability_over 0 <= _edge_to_probability_over 1)%R.
Proof.
  split; [reflexivity|].
  apply (proj2 probability_over_bounded_and_monotone 0 1). reflexivity.
Defined.

(** C2 as stated fails: the edges 3 and 4 are both sent to 0.99, so the
    conversion is not strictly increasing. *)
Lemma probability_over_not_strictly_increasing :
  3 < 4 /\
  _edge_to_probability_over 3 = 0.99%R /\
  _edge_to_probability_over 4 = 0.99%R /\
  ~ (_edge_to_probability_over 3 < _edge_to_probability_over 4)%R.
Proof.
  assert (H3 : _edge_to_probability_over 3 = 0.99%R)
    by (apply ProbabilityFacts.probability_saturates; discriminate).
  assert (H4 : _edge_to_probability_over 4 = 0.99%R)
    by (apply ProbabilityFacts.probability_saturates; discriminate).
  repeat split; try assumption.
  rewrite H3, H4. apply Rlt_irrefl.
Qed.

(** C9: a "Lean Over" comes with a probability of going over above 0.5,
    a "Lean Under" with one below 0.5. *)
Theorem lean_agrees_with_probability
    (edge : Q) (risk_mode : RiskMode) (st : StatType) :
  (_recommendation_from_edge edge risk_mode st = "Lean Over"%string ->
   (0.5 < _edge_to_probability_over edge)%R) /\
  (_recommendation_from_edge edge risk_mode st = "Lean Under"%string ->
   (_edge_to_probability_over edge < 0.5)%R).
Proof.
  assert (Hpos := threshold_pos risk_mode st).
  destruct (ProbabilityFacts.probability_side edge) as [Hover Hunder].
  destruct (recommendation_cases edge risk_mode st) as [[H ->] | [[H ->] | [H ->]]];
    split; intros Heq; try discriminate Heq.
  - apply Hover. lra.
  - apply Hunder. lra.
Qed.

Lemma lean_agrees_with_probability_witness :
  _recommendation_from_edge 1 Standard Kills = "Lean Over"%string /\
  (0.5 < _edge_to_probability_over 1)%R.
Proof.
  split; [reflexivity|].
  apply (proj1 (lean_agrees_with_probability 1 Standard Kills)). reflexivity.
Defined.

(** ** Ingestion *)

Module ClientFacts.

Import Client.

Lemma traverse_In {A B : Type} (f : A -> option B) (l : list A) (ys : list B) :
  traverse f l = Some ys -> forall y, In y ys -> exists x, In x l /\ f x = Some y.
Proof.
  revert ys. induction l as [|x l IH]; intros ys H y Hy.
  - injection H as <-. destruct Hy.
  - cbn in H. destruct (f x) as [y0|] eqn:Ex; [|discriminate].
    destruct (traverse f l) as [ys0|]; [|discriminate].
    injection H as <-. destruct Hy as [<- | Hy].
    + exists x. split; [now left | exact Ex].
    + destruct (IH ys0 eq_refl y Hy) as [x' [Hin Hx']].
      exists x'. split; [now right | exact Hx'].
Qed.

Lemma traverse_length {A B : Type} (f : A -> option B) (l : list A) (ys : list B) :
  traverse f l = Some ys -> List.length ys = List.length l.
Proof.
  revert ys. induction l as [|x l IH]; intros ys H.
  - now injection H as <-.
  - cbn in H. destruct (f x); [|discriminate].
    destruct (traverse f l) as [ys0|]; [|discriminate].
    injection H as <-. cbn. now rewrite (IH ys0 eq_refl).
Qed.

Section AnyParser.

Variable py_float : string -> option Q.

(** What [_parse_kast] returns: the parsed number over 100, with no clamp,
    or 0.70 when parsing fails. *)
Lemma parse_kast_cases (kast_raw : string) :
  (exists v, py_float (remove_percent kast_raw) = Some v /\
             _parse_kast py_float kast_raw = v / 100.0) \/
  (py_float (remove_percent kast_raw) = None /\
   _parse_kast py_float kast_raw = 0.70).
Proof.
  unfold _parse_kast. destruct (py_float (remove_percent kast_raw)) as [v|].
  - left. now exists v.
  - now right.
Qed.

Lemma player_of_row_bounds (row : Row) (p : Player) :
  player_of_row py_float row = Some p ->
  0 <= consistency p <= 1 /\ (1 <= maps_played p)%Z.
Proof.
  unfold player_of_row.
  destruct (player row) as [player_cell|]; [|discriminate].
  destruct (row_rating row) as [rating_cell|]; [|discriminate].
  intros H. injection H as <-. cbn [consistency maps_played].
  split; [split|].
  - apply Qle_trans with 0.0; [discriminate | apply Q.le_max_l].
  - apply Q.max_lub; [discriminate|].
    apply Qle_trans with 1.0; [apply Q.le_min_l | discriminate].
  - apply Z.le_max_l.
Qed.

(** X1: every record of [build_players_from_stats] has its consistency in
    [0,1] and at least one map played; there are at most 40 records. *)
Lemma build_players_bounds (df : DataFrame) (players : list Player) :
  build_players_from_stats py_float df = Some players ->
  (List.length players <= 40)%nat /\
  forall p, In p players ->
    0 <= consistency p <= 1 /\ (1 <= maps_played p)%Z.
Proof.
  unfold build_players_from_stats. destruct df as [|row0 df].
  - intros H. injection H as <-. split; [cbn; lia | intros p []].
  - destruct (traverse _ (row0 :: df)) as [rated|]; [|discriminate].
    intros H. split.
    + rewrite (traverse_length _ _ _ H). apply firstn_le_length.
    + intros p Hp. destruct (traverse_In _ _ _ H p Hp) as [r [_ Hr]].
      exact (player_of_row_bounds _ _ Hr).
Qed.

(** [build_picks] returns two picks per player record. *)
Lemma build_picks_length (df : DataFrame) (risk_mode : RiskMode)
    (players : list Player) :
  build_players_from_stats py_float df = Some players ->
  exists out,
    build_picks py_float df risk_mode = Some out /\
    List.length out = (2 * List.length players)%nat.
Proof.
  intros H. unfold build_picks. rewrite H. cbn [option_map].
  eexists. split; [reflexivity|].
  unfold build_picks_of_players.
  rewrite sort_desc_length. apply picks_in_loop_order_length.
Qed.

End AnyParser.

End ClientFacts.

(** A well-formed row whose KAST cell reads 150%. *)
Definition row_kast_150 : Client.Row :=
  Client.mkRow (Some "TenZ"%string) (Some "SEN"%string) (Some "1.20"%string)
               (Some "0.85"%string) (Some "0.25"%string) (Some "150%"%string)
               (Some "220"%string) (Some (Client.AStr "jett")) None.

(** C5 fails on the KAST part: [_parse_kast] divides the parsed percentage
    by 100 and never clamps it, so the record built from a 150% cell carries
    KAST 1.5, outside [0,1]; its consistency and maps-played are within
    their bounds. *)
Theorem kast_is_not_clamped :
  exists p,
    Client.build_players_from_stats Client.float_of_decimal [row_kast_150] = Some [p] /\
    kast p == 1.5 /\
    ~ kast p <= 1 /\
    consistency p == 1 /\
    maps_played p = 10%Z.
Proof.
  eexists. split; [vm_compute; reflexivity|].
  cbn [kast consistency maps_played].
  split; [reflexivity|]. split; [apply Qlt_not_le; reflexivity|].
  split; reflexivity.
Qed.


Lemma build_players_bounds_witness :
  exists p,
    Client.build_players_from_stats Client.float_of_decimal [row_kast_150] = Some [p] /\
    0 <= consistency p <= 1 /\ (1 <= maps_played p)%Z.
Proof.
  eexists. split; [vm_compute; reflexivity|].
  refine (proj2 (ClientFacts.build_players_bounds
                   Client.float_of_decimal [row_kast_150] _ _) _ _).
  - vm_compute. reflexivity.
  - now left.
Defined.

(** * Further properties *)

(** ** Rounding *)



Lemma round_of_int (n : Z) : Py.round (inject_Z n) = n.
Proof.
  unfold Py.round. cbv zeta. rewrite Qfloor_Z.
  replace (inject_Z n - inject_Z n ?= 1 # 2) with Lt; [reflexivity|].
  symmetry. apply (proj1 (Qlt_alt _ _)). generalize (inject_Z n). intros q. lra.
Qed.

(** ** Projection, line and spread *)

(** The linear projection before the floor at 0. *)
Definition raw_projection (player : Player) (st : StatType) : Q :=
  match st with
  | Kills => kills_per_map player + 4.0 * (rating player - 1.0)
             + 10.0 * (kast player - 0.72)
  | Assists => assists_per_map player + 2.5 * (rating player - 1.0)
               + 6.0 * (kast player - 0.72)
  end.

Lemma projection_is_floored_raw (player : Player) (st : StatType) :
  _projection_for_stat player st = Py.max 0.0 (raw_projection player st).
Proof. destruct st; reflexivity. Qed.

(** The projection is never negative: it is the linear formula when that is
    non-negative and 0 otherwise. *)
Theorem projection_floor_and_formula (player : Player) (st : StatType) :
  0 <= _projection_for_stat player st /\
  (0 <= raw_projection player st ->
   _projection_for_stat player st == raw_projection player st) /\
  (raw_projection player st <= 0 -> _projection_for_stat player st == 0).
Proof.
  rewrite projection_is_floored_raw. unfold Py.max.
  split; [|split].
  - apply Qle_trans with 0.0; [discriminate | apply Q.le_max_l].
  - intros H. apply Q.max_r. lra.
  - intros H. rewrite Q.max_l by lra. reflexivity.
Qed.

Lemma projection_floor_and_formula_witness :
  0 <= raw_projection (mkPlayer "" "" "" "" 20 4 1.3 0.85 10 0.5) Kills /\
  _projection_for_stat (mkPlayer "" "" "" "" 20 4 1.3 0.85 10 0.5) Kills ==
  raw_projection (mkPlayer "" "" "" "" 20 4 1.3 0.85 10 0.5) Kills.
Proof.
  assert (H : 0 <= raw_projection (mkPlayer "" "" "" "" 20 4 1.3 0.85 10 0.5) Kills)
    by discriminate.
  split; [exact H|].
  exact (proj1 (proj2 (projection_floor_and_formula
                         (mkPlayer "" "" "" "" 20 4 1.3 0.85 10 0.5) Kills)) H).
Defined.

(** X5: a player at least as good on every input (baseline rates, rating,
    KAST) is projected at least as high. *)
Theorem projection_monotone (p1 p2 : Player) (st : StatType) :
  kills_per_map p1 <= kills_per_map p2 ->
  assists_per_map p1 <= assists_per_map p2 ->
  rating p1 <= rating p2 ->
  kast p1 <= kast p2 ->
  _projection_for_stat p1 st <= _projection_for_stat p2 st.
Proof.
  intros Hk Ha Hr Hc. rewrite !projection_is_floored_raw. unfold Py.max.
  apply Q.max_le_compat_l. destruct st; unfold raw_projection; lra.
Qed.

Lemma projection_monotone_witness :
  _projection_for_stat (mkPlayer "" "" "" "" 18 4 1.0 0.72 10 0.5) Kills <=
  _projection_for_stat (mkPlayer "" "" "" "" 20 4 1.3 0.85 10 0.5) Kills.
Proof.
  apply (projection_monotone (mkPlayer "" "" "" "" 18 4 1.0 0.72 10 0.5)
                             (mkPlayer "" "" "" "" 20 4 1.3 0.85 10 0.5) Kills);
    discriminate.
Defined.


Lemma spread_is_floored_scale (player : Player) (st : StatType) :
  _spread_for_stat player st =
  Py.max 0.5 ((match st with Kills => 3.0 | Assists => 2.0 end)
              * (1.0 - 0.3 * consistency player)).
Proof. reflexivity. Qed.

(** X7: a more consistent player never gets a wider spread, the kills spread is
    never below the assists spread of the same player, and a non-negative
    consistency keeps the spread at or below its base (3.0 or 2.0). *)
Theorem spread_shrinks_with_consistency (p1 p2 : Player) (st : StatType) :
  consistency p1 <= consistency p2 ->
  _spread_for_stat p2 st <= _spread_for_stat p1 st /\
  _spread_for_stat p1 Assists <= _spread_for_stat p1 Kills /\
  (0 <= consistency p1 ->
   _spread_for_stat p1 st <= match st with Kills => 3.0 | Assists => 2.0 end).
Proof.
  intros Hc. rewrite !spread_is_floored_scale. unfold Py.max.
  split; [|split].
  - apply Q.max_le_compat_l. destruct st; lra.
  - destruct (Qlt_le_dec (consistency p1) (10 # 3)) as [Hlt | Hge].
    + apply Q.max_le_compat_l. lra.
    + rewrite !Q.max_l by lra. apply Qle_refl.
  - intros H0. apply Q.max_lub; destruct st; lra.
Qed.

Lemma spread_shrinks_with_consistency_witness :
  _spread_for_stat (mkPlayer "" "" "" "" 20 4 1.3 0.85 10 0.9) Kills <=
  _spread_for_stat (mkPlayer "" "" "" "" 20 4 1.3 0.85 10 0.5) Kills.
Proof.
  refine (proj1 (spread_shrinks_with_consistency
                   (mkPlayer "" "" "" "" 20 4 1.3 0.85 10 0.5)
                   (mkPlayer "" "" "" "" 20 4 1.3 0.85 10 0.9) Kills _)).
  discriminate.
Defined.

(** ** Edge *)

Lemma div_pos_sign (a d : Q) :
  0 < d -> (0 < a / d <-> 0 < a) /\ (a / d < 0 <-> a < 0) /\ (a / d == 0 <-> a == 0).
Proof.
  intros Hd.
  assert (Hinv : 0 < / d) by now apply Qinv_lt_0_compat.
  assert (Hmul : a / d * d == a) by (field; lra).
  unfold Qdiv in *.
  repeat split; intros H.
  - rewrite <- Hmul. apply Qmult_lt_0_compat; assumption.
  - apply Qmult_lt_0_compat; assumption.
  - rewrite <- Hmul. setoid_replace 0 with (0 * d) by ring.
    apply Qmult_lt_compat_r; assumption.
  - setoid_replace 0 with (0 * / d) by ring.
    apply Qmult_lt_compat_r; assumption.
  - rewrite <- Hmul, H. ring.
  - rewrite H. ring.
Qed.

(** X8: for every spread (one of 0 or less is replaced by the divisor 0.5),
    a positive edge means a projection above the line and a negative edge
    a projection below it; a projection at or above the line never gives
    a negative edge, one at or below it never a positive edge, and a tie
    gives the edge 0. *)
Theorem edge_sign_follows_projection (projection line_value spread : Q) :
  (0 < _edge_score projection line_value spread -> line_value < projection) /\
  (_edge_score projection line_value spread < 0 -> projection < line_value) /\
  (line_value <= projection -> 0 <= _edge_score projection line_value spread) /\
  (projection <= line_value -> _edge_score projection line_value spread <= 0) /\
  (projection == line_value -> _edge_score projection line_value spread == 0).
Proof.
  unfold _edge_score.
  destruct (div_pos_sign (projection - line_value) (edge_divisor spread)
                         (edge_divisor_pos spread)) as [H1 [H2 H3]].
  set (e := (projection - line_value) / edge_divisor spread) in *.
  refine (conj _ (conj _ (conj _ (conj _ _)))).
  - intros H. apply H1 in H. lra.
  - intros H. apply H2 in H. lra.
  - intros H. destruct (Qlt_le_dec e 0) as [Hneg | Hpos]; [|exact Hpos].
    apply H2 in Hneg. lra.
  - intros H. destruct (Qlt_le_dec 0 e) as [Hpos | Hneg]; [|exact Hneg].
    apply H1 in Hpos. lra.
  - intros H. apply H3. lra.
Qed.

(** ** Classifiers *)

(** X9: a lean under a stricter posture is the same lean under every looser
    one, a "Stay Away" under a looser posture stays one under every
    stricter one, and a lean on kills is the same lean on assists. *)
Theorem recommendation_monotone_in_posture (edge : Q) (st : StatType) (lean : string) :
  lean <> "Stay Away"%string ->
  (_recommendation_from_edge edge Safe st = lean ->
   _recommendation_from_edge edge Standard st = lean) /\
  (_recommendation_from_edge edge Standard st = lean ->
   _recommendation_from_edge edge Yolo st = lean) /\
  (_recommendation_from_edge edge Yolo st = "Stay Away"%string ->
   _recommendation_from_edge edge Standard st = "Stay Away"%string) /\
  (_recommendation_from_edge edge Standard st = "Stay Away"%string ->
   _recommendation_from_edge edge Safe st = "Stay Away"%string) /\
  (forall risk_mode,
     _recommendation_from_edge edge risk_mode Kills = lean ->
     _recommendation_from_edge edge risk_mode Assists = lean).
Proof.
  intros Hlean.
  assert (Hmode : forall m1 m2 s1 s2,
            threshold m2 s2 <= threshold m1 s1 ->
            (_recommendation_from_edge edge m1 s1 = lean ->
             _recommendation_from_edge edge m2 s2 = lean) /\
            (_recommendation_from_edge edge m2 s2 = "Stay Away"%string ->
             _recommendation_from_edge edge m1 s1 = "Stay Away"%string)).
  { intros m1 m2 s1 s2 Hthr.
    assert (Hp1 := threshold_pos m1 s1). assert (Hp2 := threshold_pos m2 s2).
    destruct (recommendation_cases edge m1 s1) as [[H1 ->] | [[H1 ->] | [H1 ->]]];
    destruct (recommendation_cases edge m2 s2) as [[H2 ->] | [[H2 ->] | [H2 ->]]];
      split; intros Heq; try reflexivity; try congruence; try discriminate Heq;
      exfalso; lra. }
  repeat split.
  - apply (Hmode Safe Standard st st). destruct st; discriminate.
  - apply (Hmode Standard Yolo st st). destruct st; discriminate.
  - apply (Hmode Standard Yolo st st). destruct st; discriminate.
  - apply (Hmode Safe Standard st st). destruct st; discriminate.
  - intros risk_mode. apply (Hmode risk_mode risk_mode Kills Assists).
    destruct risk_mode; discriminate.
Qed.

Lemma recommendation_monotone_in_posture_witness :
  "Lean Over"%string <> "Stay Away"%string /\
  _recommendation_from_edge 1.2 Safe Kills = "Lean Over"%string /\
  _recommendation_from_edge 1.2 Standard Kills = "Lean Over"%string.
Proof.
  assert (H : "Lean Over"%string <> "Stay Away"%string) by discriminate.
  split; [exact H|]. split; [reflexivity|].
  apply (proj1 (recommendation_monotone_in_posture 1.2 Kills "Lean Over" H)).
  reflexivity.
Defined.

(** X10: negating the edge swaps "Lean Over" and "Lean Under" and keeps
    "Stay Away". *)
Theorem recommendation_mirrors_negation
    (edge : Q) (risk_mode : RiskMode) (st : StatType) :
  (_recommendation_from_edge edge risk_mode st = "Lean Over"%string <->
   _recommendation_from_edge (- edge) risk_mode st = "Lean Under"%string) /\
  (_recommendation_from_edge edge risk_mode st = "Lean Under"%string <->
   _recommendation_from_edge (- edge) risk_mode st = "Lean Over"%string) /\
  (_recommendation_from_edge edge risk_mode st = "Stay Away"%string <->
   _recommendation_from_edge (- edge) risk_mode st = "Stay Away"%string).
Proof.
  assert (Hpos := threshold_pos risk_mode st).
  destruct (recommendation_cases edge risk_mode st) as [[H1 ->] | [[H1 ->] | [H1 ->]]];
  destruct (recommendation_cases (- edge) risk_mode st) as [[H2 ->] | [[H2 ->] | [H2 ->]]];
    repeat split; intros Heq; try reflexivity; try discriminate Heq; exfalso; lra.
Qed.

(** X11: the confidence tier is one of the three labels and never drops when
    the magnitude of the edge grows. *)
Theorem confidence_monotone_in_magnitude (e1 e2 : Q) :
  Qabs e1 <= Qabs e2 ->
  (_confidence_from_edge e1 = "High"%string \/
   _confidence_from_edge e1 = "Medium"%string \/
   _confidence_from_edge e1 = "Low"%string) /\
  (_confidence_from_edge e1 = "High"%string ->
   _confidence_from_edge e2 = "High"%string) /\
  (_confidence_from_edge e1 = "Medium"%string ->
   _confidence_from_edge e2 <> "Low"%string) /\
  (_confidence_from_edge e2 = "Low"%string ->
   _confidence_from_edge e1 = "Low"%string).
Proof.
  intros Hle.
  destruct (confidence_cases e1) as [[H1 ->] | [[H1 ->] | [H1 ->]]];
  destruct (confidence_cases e2) as [[H2 ->] | [[H2 ->] | [H2 ->]]];
    repeat split; auto; intros Heq; try discriminate Heq; try discriminate;
    exfalso; lra.
Qed.

Lemma confidence_monotone_in_magnitude_witness :
  Qabs 1.6 <= Qabs (-2) /\ _confidence_from_edge (-2) = "High"%string.
Proof.
  assert (H : Qabs 1.6 <= Qabs (-2)) by discriminate.
  split; [exact H|].
  apply (proj1 (proj2 (confidence_monotone_in_magnitude 1.6 (-2) H))).
  reflexivity.
Defined.

(** X12: under the safe posture every lean has at least "Medium"
    confidence (under the other two a lean can be "Low", as the example
    after the theorem shows). *)
Theorem safe_leans_are_not_low (edge : Q) (st : StatType) :
  _recommendation_from_edge edge Safe st <> "Stay Away"%string ->
  _confidence_from_edge edge = "Medium"%string \/
  _confidence_from_edge edge = "High"%string.
Proof.
  intros Hlean.
  assert (Hthr : 0.9 <= threshold Safe st) by (destruct st; discriminate).
  destruct (recommendation_cases edge Safe st) as [[H1 _] | [[H1 _] | [_ H1]]];
    [| | congruence];
    destruct (confidence_cases edge) as [[_ ->] | [[_ ->] | [H2 _]]]; auto;
    exfalso; revert H2; apply Qabs_case; intros; lra.
Qed.

Lemma safe_leans_are_not_low_witness :
  _recommendation_from_edge 1 Safe Kills <> "Stay Away"%string /\
  (_confidence_from_edge 1 = "Medium"%string \/
   _confidence_from_edge 1 = "High"%string).
Proof.
  assert (H : _recommendation_from_edge 1 Safe Kills <> "Stay Away"%string)
    by discriminate.
  split; [exact H|]. exact (safe_leans_are_not_low 1 Kills H).
Defined.

Example standard_lean_can_be_low :
  _recommendation_from_edge 0.75 Standard Kills = "Lean Over"%string /\
  _confidence_from_edge 0.75 = "Low"%string.
Proof. split; reflexivity. Qed.

(** ** Picks *)

Lemma in_picks_in_loop_order (players : list Player) (risk_mode : RiskMode)
    (pick : PickResult) :
  In pick (picks_in_loop_order players risk_mode) <->
  exists player st, In player players /\ pick = make_pick risk_mode player st.
Proof.
  unfold picks_in_loop_order. rewrite in_flat_map. split.
  - intros [player [Hin Hp]]. cbn in Hp.
    destruct Hp as [<- | [<- | []]]; eauto.
  - intros [player [st [Hin ->]]]. exists player. split; [exact Hin|].
    destruct st; cbn; auto.
Qed.

Lemma in_build_picks (players : list Player) (risk_mode : RiskMode)
    (pick : PickResult) :
  In pick (build_picks_of_players players risk_mode) <->
  exists player st, In player players /\ pick = make_pick risk_mode player st.
Proof.
  rewrite <- in_picks_in_loop_order. unfold build_picks_of_players.
  split; apply Permutation_in;
    [| apply Permutation_sym]; apply sort_desc_perm.
Qed.

(** X13: every pick of the assembler is consistent with itself: its identity
    fields are those of the record it keeps, its projection is not negative,
    its probability lies in [0.01, 0.99], a "Lean Over" has its projection
    above its line, a probability above 0.5 and the word "over" in its
    text, and a "Lean Under" has the opposite. *)
Theorem every_pick_is_coherent
    (players : list Player) (risk_mode : RiskMode) (pick : PickResult) :
  In pick (build_picks_of_players players risk_mode) ->
  In (raw_player pick) players /\
  player_id pick = p_id (raw_player pick) /\
  player_handle pick = p_handle (raw_player pick) /\
  team_name pick = p_team (raw_player pick) /\
  role pick = p_role (raw_player pick) /\
  0 <= projected_value pick /\
  (0.01 <= probability_over pick <= 0.99)%R /\
  (recommendation pick = "Lean Over"%string ->
   line_value pick < projected_value pick /\
   (0.5 < probability_over pick)%R /\
   explain_direction (line_value pick) (projected_value pick) = "over"%string) /\
  (recommendation pick = "Lean Under"%string ->
   projected_value pick < line_value pick /\
   (probability_over pick < 0.5)%R /\
   explain_direction (line_value pick) (projected_value pick) = "under"%string) /\
  (recommendation pick = "Lean Over"%string \/
   recommendation pick = "Lean Under"%string \/
   recommendation pick = "Stay Away"%string) /\
  (confidence pick = "High"%string \/
   confidence pick = "Medium"%string \/
   confidence pick = "Low"%string).
Proof.
  intros Hin. apply in_build_picks in Hin. destruct Hin as [player [st [Hin ->]]].
  cbn [make_pick raw_player player_id player_handle team_name role projected_value
       probability_over recommendation confidence line_value].
  set (projection := _projection_for_stat player st).
  set (line := _line_for_stat player st).
  set (spread := _spread_for_stat player st).
  set (e := _edge_score projection line spread).
  assert (Hpos := threshold_pos risk_mode st).
  destruct (div_pos_sign (projection - line) (edge_divisor spread)
                         (edge_divisor_pos spread)) as [Hd1 [Hd2 _]].
  assert (Hs1 : 0 < e <-> line < projection).
  { unfold e, _edge_score. rewrite Hd1. split; intros; lra. }
  assert (Hs2 : e < 0 <-> projection < line).
  { unfold e, _edge_score. rewrite Hd2. split; intros; lra. }
  destruct (ProbabilityFacts.probability_side e) as [Hp1 Hp2].
  refine (conj Hin (conj eq_refl (conj eq_refl (conj eq_refl (conj eq_refl
            (conj _ (conj _ (conj _ (conj _ (conj _ _)))))))))).
  - unfold projection. rewrite projection_is_floored_raw. unfold Py.max.
    apply Qle_trans with 0.0; [discriminate | apply Q.le_max_l].
  - apply ProbabilityFacts.probability_bounds.
  - intros Hrec.
    destruct (recommendation_cases e risk_mode st) as [[H _] | [[_ H] | [_ H]]];
      [| rewrite H in Hrec; discriminate ..].
    assert (He : 0 < e) by lra.
    split; [now apply Hs1 | split; [now apply Hp1|]].
    apply direction_over_iff. now apply Hs1.
  - intros Hrec.
    destruct (recommendation_cases e risk_mode st) as [[_ H] | [[H _] | [_ H]]];
      [rewrite H in Hrec; discriminate | | rewrite H in Hrec; discriminate].
    assert (He : e < 0) by lra.
    split; [now apply Hs2 | split; [now apply Hp2|]].
    unfold explain_direction. destruct (Py.gtb projection line) eqn:E; [|reflexivity].
    apply gtb_true_iff in E. apply Hs2 in He. lra.
  - destruct (recommendation_cases e risk_mode st) as [[_ H] | [[_ H] | [_ H]]];
      rewrite H; auto.
  - destruct (confidence_cases e) as [[_ H] | [[_ H] | [_ H]]]; rewrite H; auto.
Qed.

Lemma every_pick_is_coherent_witness :
  In (make_pick Standard (nth 0 example_players (mkPlayer "" "" "" "" 0 0 0 0 0 0)) Kills)
     (build_picks_of_players example_players Standard) /\
  0 <= projected_value
         (make_pick Standard (nth 0 example_players (mkPlayer "" "" "" "" 0 0 0 0 0 0)) Kills).
Proof.
  assert (H : In (make_pick Standard
                    (nth 0 example_players (mkPlayer "" "" "" "" 0 0 0 0 0 0)) Kills)
                 (build_picks_of_players example_players Standard)).
  { apply in_build_picks. eexists; eexists. split; [|reflexivity]. now left. }
  split; [exact H|].
  apply (every_pick_is_coherent example_players Standard _ H).
Defined.

Lemma desc_by_trans {A : Type} (key : A -> Q) (a b c : A) :
  desc_by key a b -> desc_by key b c -> desc_by key a c.
Proof. unfold desc_by. intros H1 H2. now apply Qle_trans with (key b). Qed.

Lemma sort_desc_strongly_sorted {A : Type} (key : A -> Q) (l : list A) :
  StronglySorted (desc_by key) (sort_desc key l).
Proof.
  apply Sorted_StronglySorted; [|apply sort_desc_sorted].
  intros a b c. apply desc_by_trans.
Qed.

Lemma strongly_sorted_nth {A : Type} (R : A -> A -> Prop) (l : list A) :
  StronglySorted R l ->
  forall i j a b, (i < j)%nat ->
    nth_error l i = Some a -> nth_error l j = Some b -> R a b.
Proof.
  induction 1 as [|x l Hs IH Hall]; intros i j a b Hij Ha Hb.
  - destruct i; discriminate.
  - destruct j as [|j]; [lia|]. cbn in Hb. destruct i as [|i].
    + cbn in Ha. injection Ha as <-.
      rewrite Forall_forall in Hall. apply Hall. eapply nth_error_In; eauto.
    + cbn in Ha. apply (IH i j); [lia | assumption | assumption].
Qed.

(** The output is ranked as a whole: a pick never has a smaller absolute
    edge than any pick after it, so the first pick has the largest absolute
    edge of all. *)
Theorem build_picks_ranked
    (players : list Player) (risk_mode : RiskMode) :
  let out := build_picks_of_players players risk_mode in
  (forall i j a b, (i < j)%nat ->
     nth_error out i = Some a -> nth_error out j = Some b ->
     Qabs (edge b) <= Qabs (edge a)) /\
  (forall first pick,
     nth_error out 0 = Some first -> In pick out ->
     Qabs (edge pick) <= Qabs (edge first)).
Proof.
  cbv zeta. unfold build_picks_of_players.
  set (key := fun p : PickResult => Py.abs (edge p)).
  assert (Hs := sort_desc_strongly_sorted key (picks_in_loop_order players risk_mode)).
  split.
  - intros i j a b Hij Ha Hb.
    exact (strongly_sorted_nth _ _ Hs i j a b Hij Ha Hb).
  - intros first pick Hfirst Hin.
    destruct (In_nth_error _ _ Hin) as [j Hj].
    destruct j as [|j].
    + rewrite Hfirst in Hj. injection Hj as <-. apply Qle_refl.
    + exact (strongly_sorted_nth _ _ Hs 0%nat (S j) first pick ltac:(lia) Hfirst Hj).
Qed.

Lemma build_picks_ranked_witness :
  Qabs (edge (make_pick Standard
                (nth 1 example_players (mkPlayer "" "" "" "" 0 0 0 0 0 0)) Kills))
  <= Qabs (edge (make_pick Standard
                   (nth 0 example_players (mkPlayer "" "" "" "" 0 0 0 0 0 0)) Assists)).
Proof.
  apply (proj1 (build_picks_ranked example_players Standard) 0%nat 3%nat);
    [lia | reflexivity | reflexivity].
Defined.

(** ** Role inference *)

Module RoleFacts.

Import Client.

Local Open Scope string_scope.

(** The names [_infer_role_from_agents] looks up: the non-blank parts,
    stripped and lowered. *)
Definition agent_names (a : Agents) : list string :=
  map (fun p => lower (strip p))
      (filter (fun p => negb (strip p =? ""))
              (match a with AStr s => split_agents s | AList l => l end)).

(** The step of the loop that collects the roles seen. *)
Definition see_role (seen : list string) (name : string) : list string :=
  match agent_role name with
  | Some role =>
      if negb (role =? "") && negb (existsb (String.eqb role) seen)
      then (seen ++ [role])%list else seen
  | None => seen
  end.

Definition roles_seen (names : list string) : list string :=
  fold_left see_role names [].

Definition known_roles : list string :=
  ["duelist"; "controller"; "initiator"; "sentinels"].

Lemma infer_role_unfold (a : Agents) :
  _infer_role_from_agents (Some a) =
  if negb (agents_truthy a) then "Unknown"
  else match agent_names a with
       | [] => "Unknown"
       | _ :: _ =>
           match roles_seen (agent_names a) with
           | [] => "Unknown"
           | [r] => r
           | _ :: _ :: _ => "Flex"
           end
       end.
Proof. reflexivity. Qed.

Lemma agent_role_known (name role : string) :
  agent_role name = Some role -> In role known_roles.
Proof.
  unfold agent_role. destruct (find _ AGENT_TO_ROLE) as [kv|] eqn:E; [|discriminate].
  intros H. injection H as <-. apply find_some in E. destruct E as [E _].
  unfold AGENT_TO_ROLE in E.
  repeat (destruct E as [<- | E]; [cbn; tauto|]). destruct E.
Qed.

Lemma existsb_eqb_In (r : string) (l : list string) :
  existsb (String.eqb r) l = true <-> In r l.
Proof.
  rewrite existsb_exists. split.
  - intros [x [Hin Heq]]. apply String.eqb_eq in Heq. now subst.
  - intros Hin. exists r. split; [exact Hin | apply String.eqb_refl].
Qed.

Lemma see_role_spec (seen : list string) (name : string) :
  NoDup seen ->
  NoDup (see_role seen name) /\
  (forall r, In r (see_role seen name) <->
             In r seen \/ agent_role name = Some r) /\
  (exists more, see_role seen name = (seen ++ more)%list).
Proof.
  intros Hnd. unfold see_role.
  destruct (agent_role name) as [role|] eqn:E.
  - assert (Hne : (role =? "") = false).
    { apply agent_role_known in E. apply String.eqb_neq.
      cbn in E. intuition (subst; discriminate). }
    rewrite Hne. cbn [negb andb].
    destruct (existsb (String.eqb role) seen) eqn:Ex; cbn [negb].
    + apply existsb_eqb_In in Ex. split; [exact Hnd|]. split.
      * intros r. split; [tauto|]. intros [H | H]; [exact H|].
        injection H as <-. exact Ex.
      * exists []. now rewrite app_nil_r.
    + assert (Hnot : ~ In role seen).
      { intros Hin. apply existsb_eqb_In in Hin. congruence. }
      split; [|split].
      * apply NoDup_app; [exact Hnd | repeat constructor; intros [] |].
        intros x Hx [<- | []]. exact (Hnot Hx).
      * intros r. rewrite in_app_iff. cbn [In]. split.
        -- intros [H | [<- | []]]; auto.
        -- intros [H | H]; [auto|]. injection H as <-. auto.
      * now exists [role].
  - split; [exact Hnd|]. split.
    + intros r. split; [tauto|]. intros [H | H]; [exact H | discriminate].
    + exists []. now rewrite app_nil_r.
Qed.

Lemma fold_see_role_spec (names : list string) (seen : list string) :
  NoDup seen ->
  NoDup (fold_left see_role names seen) /\
  (forall r, In r (fold_left see_role names seen) <->
             In r seen \/ exists name, In name names /\ agent_role name = Some r).
Proof.
  revert seen. induction names as [|name names IH]; intros seen Hnd.
  - split; [exact Hnd|]. intros r. split; [tauto|].
    intros [H | [name [[] _]]]. exact H.
  - cbn [fold_left].
    destruct (see_role_spec seen name Hnd) as [Hnd' [Hin' _]].
    destruct (IH _ Hnd') as [Hnd'' Hin''].
    split; [exact Hnd''|].
    intros r. rewrite Hin'', Hin'. split.
    + intros [[H | H] | [n [Hn Hr]]]; [now left | right | right].
      * exists name. split; [now left | exact H].
      * exists n. split; [now right | exact Hr].
    + intros [H | [n [[<- | Hn] Hr]]]; [now left; left | now left; right | right].
      exists n. now split.
Qed.

Lemma roles_seen_spec (names : list string) :
  NoDup (roles_seen names) /\
  (forall r, In r (roles_seen names) <->
             exists name, In name names /\ agent_role name = Some r).
Proof.
  destruct (fold_see_role_spec names [] (NoDup_nil _)) as [Hnd Hin].
  split; [exact Hnd|]. intros r. unfold roles_seen. rewrite Hin.
  split; [intros [[] | H]; exact H | now right].
Qed.

(** The inferred role is one of six labels: "Unknown", "Flex" or a role of
    the agent table. *)
Theorem inferred_role_is_a_known_label (agents_raw : option Agents) :
  In (_infer_role_from_agents agents_raw)
     ("Unknown" :: "Flex" :: known_roles).
Proof.
  destruct agents_raw as [a|]; [|now left].
  rewrite infer_role_unfold.
  destruct (negb (agents_truthy a)); [now left|].
  destruct (agent_names a) as [|n ns] eqn:En; [now left|].
  destruct (roles_seen (n :: ns)) as [|r [|r' rs]] eqn:Er; [now left | | right; now left].
  right. right.
  destruct (roles_seen_spec (n :: ns)) as [_ Hin].
  assert (Hr : In r (roles_seen (n :: ns))) by (rewrite Er; now left).
  apply Hin in Hr. destruct Hr as [name [_ Hr]].
  exact (agent_role_known _ _ Hr).
Qed.

(** X14: what decides the label: no agent of the table among the names gives
    "Unknown", names of the table that all share one role give that role,
    and names of the table with two different roles give "Flex".  Names
    outside the table are ignored. *)
Theorem inferred_role_by_cases (a : Agents) :
  agents_truthy a = true ->
  ((forall name, In name (agent_names a) -> agent_role name = None) ->
   _infer_role_from_agents (Some a) = "Unknown") /\
  (forall role,
     (exists name, In name (agent_names a) /\ agent_role name = Some role) ->
     (forall name r, In name (agent_names a) -> agent_role name = Some r -> r = role) ->
     _infer_role_from_agents (Some a) = role) /\
  (forall n1 n2 r1 r2,
     In n1 (agent_names a) -> In n2 (agent_names a) ->
     agent_role n1 = Some r1 -> agent_role n2 = Some r2 -> r1 <> r2 ->
     _infer_role_from_agents (Some a) = "Flex").
Proof.
  intros Htruthy. rewrite infer_role_unfold, Htruthy. cbn [negb].
  destruct (roles_seen_spec (agent_names a)) as [Hnd Hin].
  split; [|split].
  - intros Hnone. destruct (agent_names a) as [|n ns] eqn:En; [reflexivity|].
    destruct (roles_seen (n :: ns)) as [|r rs] eqn:Er; [reflexivity|].
    exfalso. assert (Hr : In r (r :: rs)) by now left.
    apply Hin in Hr. destruct Hr as [name [Hname Hr]].
    rewrite (Hnone name Hname) in Hr. discriminate.
  - intros role [name [Hname Hrole]] Hall.
    destruct (agent_names a) as [|n ns] eqn:En; [destruct Hname|].
    assert (Hmem : In role (roles_seen (n :: ns))) by (apply Hin; eauto).
    assert (Honly : forall r, In r (roles_seen (n :: ns)) -> r = role).
    { intros r Hr. apply Hin in Hr. destruct Hr as [m [Hm Hr]]. eauto. }
    destruct (roles_seen (n :: ns)) as [|r [|r' rs]]; [destruct Hmem | |].
    + apply Honly. now left.
    + exfalso. assert (r = role) by (apply Honly; now left).
      assert (r' = role) by (apply Honly; right; now left).
      subst. inversion Hnd as [|? ? Hnot _]. apply Hnot. now left.
  - intros n1 n2 r1 r2 H1 H2 E1 E2 Hneq.
    destruct (agent_names a) as [|n ns] eqn:En; [destruct H1|].
    assert (M1 : In r1 (roles_seen (n :: ns))) by (apply Hin; eauto).
    assert (M2 : In r2 (roles_seen (n :: ns))) by (apply Hin; eauto).
    destruct (roles_seen (n :: ns)) as [|r [|r' rs]]; [destruct M1 | | reflexivity].
    exfalso. destruct M1 as [<- | []]. destruct M2 as [<- | []]. now apply Hneq.
Qed.

Lemma inferred_role_by_cases_witness :
  agents_truthy (AStr "Jett, Sova / omen") = true /\
  _infer_role_from_agents (Some (AStr "Jett, Sova / omen")) = "Flex".
Proof.
  assert (H : agents_truthy (AStr "Jett, Sova / omen") = true) by reflexivity.
  split; [exact H|].
  apply (proj2 (proj2 (inferred_role_by_cases (AStr "Jett, Sova / omen") H))
               "jett" "sova" "duelist" "initiator");
    [vm_compute; tauto | vm_compute; tauto | reflexivity | reflexivity | discriminate].
Defined.

(** The agent "Phoenix" is not recognised: the table spells it "pheonix". *)
Example phoenix_is_unknown :
  _infer_role_from_agents (Some (AList ["Phoenix"])) = "Unknown" /\
  _infer_role_from_agents (Some (AList ["Pheonix"])) = "duelist".
Proof. split; reflexivity. Qed.

End RoleFacts.

(** ** Conversion of a frame *)

Module FrameFacts.

Import Client ClientFacts.

Lemma traverse_Forall2 {A B : Type} (f : A -> option B) (l : list A) (ys : list B) :
  traverse f l = Some ys -> Forall2 (fun x y => f x = Some y) l ys.
Proof.
  revert ys. induction l as [|x l IH]; intros ys H.
  - injection H as <-. constructor.
  - cbn in H. destruct (f x) as [y|] eqn:Ex; [|discriminate].
    destruct (traverse f l) as [ys0|]; [|discriminate].
    injection H as <-. constructor; [exact Ex | now apply IH].
Qed.

Lemma traverse_total {A B : Type} (f : A -> option B) (l : list A) :
  (forall x, In x l -> f x <> None) -> exists ys, traverse f l = Some ys.
Proof.
  induction l as [|x l IH]; intros H.
  - now exists [].
  - destruct IH as [ys Hys]; [intros; apply H; now right|].
    destruct (f x) as [y|] eqn:Ex; [|exfalso; apply (H x); [now left | exact Ex]].
    exists (y :: ys). cbn. now rewrite Ex, Hys.
Qed.


Lemma traverse_map {A B C : Type} (g : A -> B) (f : B -> option C) (l : list A) :
  traverse f (map g l) = traverse (fun x => f (g x)) l.
Proof.
  induction l as [|x l IH]; [reflexivity|]. cbn. now rewrite IH.
Qed.

Lemma in_firstn {A : Type} (n : nat) (l : list A) (x : A) :
  In x (firstn n l) -> In x l.
Proof.
  intros H. rewrite <- (firstn_skipn n l). apply in_or_app. now left.
Qed.

Lemma in_skipn {A : Type} (n : nat) (l : list A) (x : A) :
  In x (skipn n l) -> In x l.
Proof.
  intros H. rewrite <- (firstn_skipn n l). apply in_or_app. now right.
Qed.

Lemma strongly_sorted_app {A : Type} (R : A -> A -> Prop) (l1 l2 : list A) :
  StronglySorted R (l1 ++ l2) ->
  StronglySorted R l1 /\ forall a b, In a l1 -> In b l2 -> R a b.
Proof.
  induction l1 as [|x l1 IH]; cbn; intros H.
  - split; [constructor | intros a b []].
  - inversion H as [|? ? Hs Hall]; subst. destruct (IH Hs) as [Hs1 Hcross].
    rewrite Forall_forall in Hall. split.
    + constructor; [exact Hs1|]. apply Forall_forall.
      intros y Hy. apply Hall, in_or_app. now left.
    + intros a b [<- | Ha] Hb; [apply Hall, in_or_app; now right | now apply Hcross].
Qed.

Lemma Forall2_In_right {A B : Type} (P : A -> B -> Prop) (l : list A) (l' : list B) :
  Forall2 P l l' -> forall y', In y' l' -> exists y, In y l /\ P y y'.
Proof.
  induction 1 as [|x x' l l' Hx _ IH]; intros y' Hy'; [destruct Hy'|].
  destruct Hy' as [<- | Hy'].
  - exists x. split; [now left | exact Hx].
  - destruct (IH y' Hy') as [y [Hy Py]]. exists y. split; [now right | exact Py].
Qed.

Lemma strongly_sorted_Forall2 {A B : Type} (P : A -> B -> Prop)
    (R : A -> A -> Prop) (R' : B -> B -> Prop) (l : list A) (l' : list B) :
  (forall x x' y y', In x l -> In y l -> P x x' -> P y y' -> R x y -> R' x' y') ->
  Forall2 P l l' -> StronglySorted R l -> StronglySorted R' l'.
Proof.
  intros Himp HF. induction HF as [|x x' l l' Hx HF IH]; intros Hs.
  - constructor.
  - inversion Hs as [|? ? Hs0 Hall]; subst. constructor.
    + apply IH; [|exact Hs0]. intros a a' b b' Ha Hb. apply Himp; now right.
    + rewrite Forall_forall in Hall. apply Forall_forall. intros y' Hy'.
      destruct (Forall2_In_right _ _ _ HF _ Hy') as [y [Hy Py]].
      apply (Himp x x' y y'); [now left | now right | exact Hx | exact Py | now apply Hall].
Qed.

Section AnyParser.

Variable py_float : string -> option Q.

(** The rating a row is ranked by: [_float_safe(row["rating"], 1.0)]. *)
Definition rating_float (row : Row) : Q :=
  float_safe_get py_float (row_rating row) 1.0.

Definition rate (row : Row) : option (Q * Row) :=
  option_map (fun x => (_float_safe py_float x 1.0, row)) (row_rating row).

Lemma rate_spec (row : Row) (r : Q * Row) :
  rate row = Some r -> snd r = row /\ fst r = rating_float row.
Proof.
  unfold rate, rating_float, float_safe_get.
  destruct (row_rating row) as [x|]; [|discriminate].
  intros H. injection H as <-. now split.
Qed.

Lemma player_of_row_rating (row : Row) (p : Player) :
  player_of_row py_float row = Some p -> rating p = rating_float row.
Proof.
  unfold player_of_row, rating_float, float_safe_get.
  destruct (player row); [|discriminate].
  destruct (row_rating row); [|discriminate].
  intros H. now injection H as <-.
Qed.

Lemma rated_rows (df : DataFrame) (rated : list (Q * Row)) :
  traverse rate df = Some rated ->
  map snd rated = df /\ Forall (fun r => fst r = rating_float (snd r)) rated.
Proof.
  intros H. apply traverse_Forall2 in H.
  induction H as [|row r df rated Hr _ [IH1 IH2]]; [split; constructor|].
  destruct (rate_spec _ _ Hr) as [Hsnd Hfst]. split.
  - cbn. now rewrite Hsnd, IH1.
  - constructor; [now rewrite Hsnd | exact IH2].
Qed.

(** [df.sort_values("rating_float", ascending=False)]: pandas sorts with
    quicksort unless told otherwise, so rows of equal rating can come out
    in any order.  Every descending arrangement of the rows is a possible
    result. *)
Definition sort_values_desc {A : Type} (key : A -> Q) (rows sorted : list A) : Prop :=
  Permutation sorted rows /\ StronglySorted (desc_by key) sorted.

(** The conversion with the order of equal ratings left open:
    [build_players_returns df players] when [players] is a possible result
    of [build_players_from_stats] on [df]. *)
Definition build_players_returns (df : DataFrame) (players : list Player) : Prop :=
  match df with
  | [] => players = []
  | _ :: _ =>
      exists rated sorted,
        traverse rate df = Some rated /\
        sort_values_desc fst rated sorted /\
        traverse (fun r => player_of_row py_float (snd r)) (firstn 40 sorted) =
        Some players
  end.

(** The stable order that [build_players_from_stats] takes is one of the
    possible results. *)
Lemma stable_order_returns (df : DataFrame) (players : list Player) :
  build_players_from_stats py_float df = Some players ->
  build_players_returns df players.
Proof.
  unfold build_players_from_stats, build_players_returns.
  destruct df as [|row0 df0]; [now intros [= <-]|].
  set (df := row0 :: df0).
  change (traverse (fun row => option_map (fun x => (_float_safe py_float x 1.0, row))
                                          (row_rating row)) df)
    with (traverse rate df).
  destruct (traverse rate df) as [rated|]; [|discriminate].
  intros H. exists rated, (sort_desc fst rated).
  split; [reflexivity|]. split; [|exact H].
  split; [apply sort_desc_perm | apply sort_desc_strongly_sorted].
Qed.

(** X15: whatever order pandas leaves rows of equal rating in, the records
    returned are those of the 40 best rated rows, best first: there are
    min(40, rows) of them, their ratings never increase down the list, and
    every row left out is rated no higher than any record kept. *)
Theorem build_players_keeps_top_rated (df : DataFrame) (players : list Player) :
  build_players_returns df players ->
  List.length players = Nat.min 40 (List.length df) /\
  StronglySorted (fun a b => rating b <= rating a) players /\
  exists kept dropped : list Row,
    Permutation df (kept ++ dropped) /\
    traverse (player_of_row py_float) kept = Some players /\
    forall d p, In d dropped -> In p players -> rating_float d <= rating p.
Proof.
  unfold build_players_returns. destruct df as [|row0 df0].
  - intros ->. split; [reflexivity|]. split; [constructor|].
    exists [], []. split; [constructor|]. split; [reflexivity | intros d p []].
  - set (df := row0 :: df0).
    intros [rated [sorted [Erated [[Hperm Hsorted] H]]]].
    destruct (rated_rows _ _ Erated) as [Hrows Hkeys].
    rewrite <- (firstn_skipn 40 sorted) in Hsorted.
    apply strongly_sorted_app in Hsorted. destruct Hsorted as [Hkept Hcross].
    assert (Hkeys' : Forall (fun r => fst r = rating_float (snd r)) sorted).
    { apply Forall_forall. intros r Hr. rewrite Forall_forall in Hkeys.
      apply Hkeys. exact (Permutation_in _ Hperm Hr). }
    rewrite Forall_forall in Hkeys'.
    assert (HF := traverse_Forall2 _ _ _ H).
    assert (Hrating : forall r p, In r sorted ->
              player_of_row py_float (snd r) = Some p -> rating p = fst r).
    { intros r p Hr Hp. rewrite (Hkeys' r Hr). now apply player_of_row_rating. }
    split; [|split].
    + rewrite (traverse_length _ _ _ H), length_firstn.
      rewrite (Permutation_length Hperm), <- Hrows, length_map. reflexivity.
    + refine (strongly_sorted_Forall2 _ _ _ _ _ _ HF Hkept).
      intros x x' y y' Hx Hy Px Py Hxy. cbv beta in Px, Py.
      apply in_firstn in Hx. apply in_firstn in Hy.
      rewrite (Hrating x x' Hx Px), (Hrating y y' Hy Py). exact Hxy.
    + exists (map snd (firstn 40 sorted)), (map snd (skipn 40 sorted)). split; [|split].
      * rewrite <- map_app, firstn_skipn, <- Hrows.
        apply Permutation_map, Permutation_sym, Hperm.
      * rewrite traverse_map. exact H.
      * intros d p Hd Hp. apply in_map_iff in Hd. destruct Hd as [rd [<- Hrd]].
        destruct (traverse_In _ _ _ H p Hp) as [rp [Hrp Hpp]].
        rewrite (Hrating rp p (in_firstn _ _ _ Hrp) Hpp).
        rewrite <- (Hkeys' rd (in_skipn _ _ _ Hrd)).
        apply (Hcross rp rd Hrp Hrd).
Qed.


End AnyParser.

End FrameFacts.

(** A frame of 42 rows: one rated 0.80, forty rated 1.20 and one rated
    1.50, worst first. *)
Definition rated_row (name rating_cell : string) : Client.Row :=
  Client.mkRow (Some name) (Some "SEN"%string) (Some rating_cell)
               (Some "0.85"%string) (Some "0.25"%string) (Some "74%"%string)
               (Some "220"%string) (Some (Client.AStr "jett")) None.

Definition example_frame : Client.DataFrame :=
  (rated_row "low" "0.80" :: repeat (rated_row "mid" "1.20") 40
   ++ [rated_row "top" "1.50"])%list.

Lemma build_players_keeps_top_rated_witness :
  exists players,
    Client.build_players_from_stats Client.float_of_decimal example_frame =
    Some players /\
    List.length players = 40%nat /\
    StronglySorted (fun a b => rating b <= rating a) players.
Proof.
  eexists. split; [vm_compute; reflexivity|].
  refine ((fun T => conj (proj1 T) (proj1 (proj2 T)))
            (FrameFacts.build_players_keeps_top_rated
               Client.float_of_decimal example_frame _
               (FrameFacts.stable_order_returns
                  Client.float_of_decimal example_frame _ _))).
  vm_compute. reflexivity.
Defined.

(** ** Fields of a converted row *)

Module RowFacts.

Import Client ClientFacts.

Local Open Scope string_scope.

(** No blank at the front. *)
Definition clean (l : list ascii) : Prop :=
  match l with
  | c :: _ => is_space c = false
  | [] => True
  end.

Lemma lstrip_clean (l : list ascii) : clean (lstrip_chars l).
Proof.
  induction l as [|c l IH]; cbn; [exact I|].
  destruct (is_space c) eqn:E; [exact IH | exact E].
Qed.

Lemma lstrip_of_clean (l : list ascii) : clean l -> lstrip_chars l = l.
Proof. destruct l as [|c l]; cbn; [reflexivity | now intros ->]. Qed.

Lemma lstrip_suffix (l : list ascii) : exists pre, l = (pre ++ lstrip_chars l)%list.
Proof.
  induction l as [|c l [pre IH]]; cbn; [now exists []|].
  destruct (is_space c).
  - exists (c :: pre). cbn. now rewrite <- IH.
  - now exists [].
Qed.

Lemma strip_chars_clean (l : list ascii) :
  let r := rev (lstrip_chars (rev (lstrip_chars l))) in
  clean r /\ clean (rev r).
Proof.
  cbv zeta. rewrite rev_involutive. split; [|apply lstrip_clean].
  assert (H1 := lstrip_clean l).
  destruct (lstrip_suffix (rev (lstrip_chars l))) as [pre Hpre].
  set (l2 := lstrip_chars (rev (lstrip_chars l))) in *.
  assert (Hl1 : lstrip_chars l = (rev l2 ++ rev pre)%list).
  { rewrite <- rev_app_distr, <- Hpre. now rewrite rev_involutive. }
  destruct (rev l2) as [|c r]; [exact I|].
  rewrite Hl1 in H1. exact H1.
Qed.

Lemma strip_idempotent (s : string) : strip (strip s) = strip s.
Proof.
  unfold strip. rewrite list_ascii_of_string_of_list_ascii.
  destruct (strip_chars_clean (list_ascii_of_string s)) as [H1 H2].
  set (r := rev (lstrip_chars (rev (lstrip_chars (list_ascii_of_string s))))) in *.
  rewrite (lstrip_of_clean r H1), (lstrip_of_clean (rev r) H2).
  now rewrite rev_involutive.
Qed.

Lemma keep_lower_alnum_chars (s : string) :
  Forall (fun c => is_lower_alnum c = true)
         (list_ascii_of_string (keep_lower_alnum s)).
Proof.
  unfold keep_lower_alnum. rewrite list_ascii_of_string_of_list_ascii.
  apply Forall_forall. intros c Hc. now apply filter_In in Hc.
Qed.

Lemma str_or_cases (a b : string) :
  (a <> "" /\ str_or a b = a) \/ (a = "" /\ str_or a b = b).
Proof.
  unfold str_or. destruct (a =? "") eqn:E.
  - right. now apply String.eqb_eq in E.
  - left. now apply String.eqb_neq in E.
Qed.

Section AnyParser.

Variable py_float : string -> option Q.

(** X17: the text fields of a record: the handle and the team carry no blank at
    either end, the team is never empty, the id is either made of the
    characters a-z and 0-9 only (and is not empty) or is the lowered handle,
    and the role is one of the six labels. *)
Theorem record_text_fields (row : Row) (p : Player) :
  player_of_row py_float row = Some p ->
  strip (p_handle p) = p_handle p /\
  strip (p_team p) = p_team p /\
  p_team p <> "" /\
  ((p_id p <> "" /\
    Forall (fun c => is_lower_alnum c = true) (list_ascii_of_string (p_id p))) \/
   p_id p = lower (p_handle p)) /\
  In (p_role p) ("Unknown" :: "Flex" :: RoleFacts.known_roles).
Proof.
  unfold player_of_row.
  destruct (player row) as [player_cell|]; [|discriminate].
  destruct (row_rating row) as [rating_cell|]; [|discriminate].
  intros H. injection H as <-. cbn [p_handle p_team p_id p_role].
  set (org_cell := match org row with Some o => o | None => "" end).
  split; [apply strip_idempotent|]. split; [|split; [|split]].
  - destruct (str_or_cases (strip org_cell) "Unknown") as [[_ ->] | [_ ->]];
      [apply strip_idempotent | reflexivity].
  - destruct (str_or_cases (strip org_cell) "Unknown") as [[Hne ->] | [_ ->]];
      [exact Hne | discriminate].
  - match goal with |- context [str_or (keep_lower_alnum ?raw) ?h] =>
      destruct (str_or_cases (keep_lower_alnum raw) h) as [[Hne ->] | [_ ->]]
    end.
    + left. split; [exact Hne | apply keep_lower_alnum_chars].
    + now right.
  - apply RoleFacts.inferred_role_is_a_known_label.
Qed.

(** X18: how the consistency score follows from the record's own KAST and
    rating: it is the blend 0.5 (kast - 0.65) / 0.15 + 0.5 (rating - 0.9) / 0.4
    cut to [0, 1], hence 1 from KAST 0.80 and rating 1.3 up, 0 from
    KAST 0.65 and rating 0.9 down, and the per-map rates are 22 times
    non-clamped per-round rates. *)
Theorem record_consistency (row : Row) (p : Player) :
  player_of_row py_float row = Some p ->
  let blend := (0.5 * (kast p - 0.65) / 0.15 + 0.5 * (rating p - 0.9) / 0.4)%Q in
  (consistency p == Qmax 0 (Qmin 1 blend))%Q /\
  (0.80 <= kast p -> 1.3 <= rating p -> consistency p == 1)%Q /\
  (kast p <= 0.65 -> rating p <= 0.9 -> consistency p == 0)%Q /\
  (kills_per_map p == 22 * float_safe_get py_float (kills_per_round row) 0.8)%Q /\
  (assists_per_map p == 22 * float_safe_get py_float (assists_per_round row) 0.3)%Q.
Proof.
  unfold player_of_row.
  destruct (player row) as [player_cell|]; [|discriminate].
  destruct (row_rating row) as [rating_cell|]; [|discriminate].
  intros H. injection H as <-.
  cbn [consistency kast rating kills_per_map assists_per_map]. cbv zeta.
  set (k := _parse_kast py_float _).
  set (r := _float_safe py_float rating_cell 1.0).
  unfold Py.max, Py.min.
  set (blend := (0.5 * (k - 0.65) / 0.15 + 0.5 * (r - 0.9) / 0.4)%Q).
  assert (Hform : (Qmax 0.0 (Qmin 1.0 blend) == Qmax 0 (Qmin 1 blend))%Q).
  { apply Q.max_compat; [reflexivity|]. apply Q.min_compat; reflexivity. }
  assert (Hlin : (blend == (10 # 3) * (k - 0.65) + (5 # 4) * (r - 0.9))%Q)
    by (unfold blend; field).
  split; [exact Hform|]. split; [|split; [|split]].
  - intros Hk Hr. rewrite Hform.
    assert (Hb : (1 <= blend)%Q) by lra.
    rewrite (Q.min_l 1 blend Hb). apply Q.max_r. lra.
  - intros Hk Hr. rewrite Hform.
    assert (Hb : (blend <= 0)%Q) by lra.
    rewrite (Q.min_r 1 blend) by lra. apply Q.max_l. exact Hb.
  - unfold EXPECTED_ROUNDS_PER_MAP. change (inject_Z 22) with 22%Q. ring.
  - unfold EXPECTED_ROUNDS_PER_MAP. change (inject_Z 22) with 22%Q. ring.
Qed.

Lemma build_players_members (df : DataFrame) (players : list Player) :
  build_players_from_stats py_float df = Some players ->
  List.length players = Nat.min 40 (List.length df) /\
  forall p, In p players -> exists row, player_of_row py_float row = Some p.
Proof.
  unfold build_players_from_stats. destruct df as [|row0 df0].
  - intros H. injection H as <-. split; [reflexivity | intros p []].
  - destruct (traverse _ (row0 :: df0)) as [rated|] eqn:Erated; [|discriminate].
    intros H. split.
    + rewrite (traverse_length _ _ _ H), length_firstn, sort_desc_length.
      now rewrite (traverse_length _ _ _ Erated).
    + intros p Hp. destruct (traverse_In _ _ _ H p Hp) as [r [_ Hr]].
      now exists (snd r).
Qed.

(** X19: from frame to picks: every pick made from a converted frame keeps a
    record with consistency in [0,1], so its spread is not floored and its
    edge is (projection - line) / (base * (1 - 0.3 * consistency)), base 3.0
    for kills and 2.0 for assists; there are two picks per record, at most
    80. *)
Theorem picks_of_a_frame (df : DataFrame) (risk_mode : RiskMode)
    (out : list PickResult) :
  build_picks py_float df risk_mode = Some out ->
  List.length out = (2 * Nat.min 40 (List.length df))%nat /\
  forall pick, In pick out ->
    (0 <= consistency (raw_player pick) <= 1)%Q /\
    (1 <= maps_played (raw_player pick))%Z /\
    (edge pick ==
     (projected_value pick - line_value pick)
     / ((match stat_type pick with Kills => 3.0 | Assists => 2.0 end)
        * (1.0 - 0.3 * consistency (raw_player pick))))%Q.
Proof.
  unfold build_picks.
  destruct (build_players_from_stats py_float df) as [players|] eqn:Eplayers;
    [|discriminate].
  cbn [option_map]. intros H. injection H as <-.
  destruct (build_players_members df players Eplayers) as [Hlen Hrows].
  assert (Hbounds : forall p, In p players ->
            (0 <= consistency p <= 1)%Q /\ (1 <= maps_played p)%Z).
  { intros p Hp. destruct (Hrows p Hp) as [row Hrow].
    exact (player_of_row_bounds py_float row p Hrow). }
  split.
  - unfold build_picks_of_players.
    now rewrite sort_desc_length, picks_in_loop_order_length, Hlen.
  - intros pick Hin. apply in_build_picks in Hin.
    destruct Hin as [player [st [Hplayer ->]]].
    destruct (Hbounds player Hplayer) as [Hc Hm].
    cbn [make_pick raw_player edge projected_value line_value stat_type].
    split; [exact Hc|]. split; [exact Hm|].
    assert (Hspread : (_spread_for_stat player st ==
                       (match st with Kills => 3.0 | Assists => 2.0 end)
                       * (1.0 - 0.3 * consistency player))%Q).
    { unfold _spread_for_stat. apply max_of_larger. destruct st; lra. }
    unfold _edge_score, edge_divisor.
    assert (Hleb : Py.leb (_spread_for_stat player st) 0 = false).
    { apply leb_false_iff. assert (Hf := spread_floor player st). lra. }
    rewrite Hleb. now rewrite Hspread.
Qed.

End AnyParser.

End RowFacts.

Lemma record_text_fields_witness :
  exists p,
    Client.player_of_row Client.float_of_decimal row_kast_150 = Some p /\
    p_team p <> ""%string.
Proof.
  eexists. split; [vm_compute; reflexivity|].
  refine (proj1 (proj2 (proj2 (RowFacts.record_text_fields
                                 Client.float_of_decimal row_kast_150 _ _)))).
  vm_compute. reflexivity.
Defined.

Lemma record_consistency_witness :
  exists p,
    Client.player_of_row Client.float_of_decimal row_kast_150 = Some p /\
    kills_per_map p ==
    22 * Client.float_safe_get Client.float_of_decimal
           (Client.kills_per_round row_kast_150) 0.8.
Proof.
  eexists. split; [vm_compute; reflexivity|].
  refine (proj1 (proj2 (proj2 (proj2 (RowFacts.record_consistency
                                        Client.float_of_decimal row_kast_150 _ _))))).
  vm_compute. reflexivity.
Defined.

Lemma picks_of_a_frame_witness :
  exists out,
    Client.build_picks Client.float_of_decimal [row_kast_150] Standard = Some out /\
    List.length out = (2 * Nat.min 40 (List.length [row_kast_150]))%nat.
Proof.
  eexists. split; [reflexivity|].
  refine (proj1 (RowFacts.picks_of_a_frame
                   Client.float_of_decimal [row_kast_150] Standard _ _)).
  reflexivity.
Defined.

(** * The front end (app.py)

    The filters, the metrics and the top three of the page, as functions
    of the picks and of the sidebar controls; the widgets and the HTML are
    left out. *)

Module App.

Local Open Scope string_scope.

(** [needle in hay] on strings. *)
Fixpoint contains (needle hay : string) : bool :=
  if String.prefix needle hay then true
  else match hay with
       | EmptyString => false
       | String _ rest => contains needle rest
       end.

Definition matches_search (p : PickResult) (term : string) : bool :=
  let term := Client.lower (Client.strip term) in
  if (term =? "")%string then true
  else contains term (Client.lower (player_handle p)).

(** [confidence_rank[label]]; [None] is the [KeyError]. *)
Definition confidence_rank (label : string) : option Z :=
  if (label =? "Low")%string then Some 0%Z
  else if (label =? "Medium")%string then Some 1%Z
  else if (label =? "High")%string then Some 2%Z
  else None.

Section Controls.

Variables (stat_type_filter : list string) (min_confidence search_term : string).

(** The condition of the list comprehension, evaluated left to right. *)
Definition keeps (p : PickResult) : option bool :=
  if existsb (String.eqb (stat_name (stat_type p))) stat_type_filter then
    match confidence_rank (confidence p), confidence_rank min_confidence with
    | Some rank, Some least =>
        if (least <=? rank)%Z then Some (matches_search p search_term)
        else Some false
    | _, _ => None
    end
  else Some false.

Fixpoint filtered_picks (picks : list PickResult) : option (list PickResult) :=
  match picks with
  | [] => Some []
  | p :: rest =>
      match keeps p with
      | None => None
      | Some keep =>
          match filtered_picks rest with
          | None => None
          | Some shown => Some (if keep then p :: shown else shown)
          end
      end
  end.

End Controls.

Definition count_recommendation (label : string) (picks : list PickResult) : nat :=
  List.length (filter (fun p => (recommendation p =? label)%string) picks).

(** [sum(abs(p.edge) for p in picks)]: from 0, left to right. *)
Definition sum_abs_edge (picks : list PickResult) : Q :=
  fold_left (fun acc p => acc + Py.abs (edge p)) picks 0.

(** What the page shows below the header. *)
Record Dashboard : Type := mkDashboard {
  total_players : nat;
  total_picks : nat;
  over_count : nat;
  under_count : nat;
  stay_count : nat;
  avg_edge : Q;
  top3 : list PickResult;
  shown : list PickResult
}.

Inductive Page : Type :=
  | FetchError                    (* [st.error] after [build_picks] raised *)
  | Uncaught                      (* an exception outside the [try] *)
  | NoMatch                       (* [st.warning]: no pick passes the filters *)
  | Rendered (d : Dashboard).

Definition render (built : option (list PickResult))
    (stat_type_filter : list string) (min_confidence search_term : string) : Page :=
  match built with
  | None => FetchError
  | Some picks =>
      match filtered_picks stat_type_filter min_confidence search_term picks with
      | None => Uncaught
      | Some [] => NoMatch
      | Some (p :: rest) =>
          let filtered := p :: rest in
          Rendered
            {| total_players :=
                 List.length (nodup string_dec (map player_handle picks));
               total_picks := List.length picks;
               over_count := count_recommendation "Lean Over" filtered;
               under_count := count_recommendation "Lean Under" filtered;
               stay_count := count_recommendation "Stay Away" filtered;
               avg_edge :=
                 sum_abs_edge filtered / inject_Z (Z.of_nat (List.length filtered));
               top3 := firstn 3 filtered;
               shown := filtered |}
      end
  end.

End App.

(** ** The page: filters, metrics and top three *)

Module AppFacts.

Import App.

Local Open Scope string_scope.

(** *** Substrings *)

Lemma prefix_spec (n h : string) :
  String.prefix n h = true <-> exists post, h = n ++ post.
Proof.
  revert h. induction n as [|c n IH]; intros h; cbn.
  - split; [intros _; now exists h | intros _; now destruct h].
  - destruct h as [|c' h]; cbn.
    + split; [discriminate | intros [post H]; discriminate].
    + destruct (Ascii.ascii_dec c c') as [->|Hne].
      * rewrite IH. split; intros [post H]; exists post; [now rewrite H | now injection H].
      * split; [discriminate|]. intros [post H]. injection H as H1 _. congruence.
Qed.

Lemma contains_spec (n h : string) :
  contains n h = true <-> exists pre post, h = pre ++ n ++ post.
Proof.
  induction h as [|c h IH].
  - cbn [contains]. destruct (String.prefix n "") eqn:E.
    + split; [intros _|reflexivity]. apply prefix_spec in E. destruct E as [post E].
      now exists "", post.
    + split; [discriminate|]. intros [pre [post H]].
      destruct pre; [|discriminate]. cbn in H.
      assert (String.prefix n "" = true) by (apply prefix_spec; now exists post).
      congruence.
  - cbn [contains]. destruct (String.prefix n (String c h)) eqn:E.
    + split; [intros _|reflexivity]. apply prefix_spec in E. destruct E as [post E].
      now exists "", post.
    + rewrite IH. split.
      * intros [pre [post H]]. exists (String c pre), post. cbn. now rewrite H.
      * intros [pre [post H]]. destruct pre as [|c' pre].
        -- cbn in H.
           assert (String.prefix n (String c h) = true)
             by (apply prefix_spec; now exists post).
           congruence.
        -- cbn in H. injection H as _ H. now exists pre, post.
Qed.

Lemma string_of_list_ascii_app (l1 l2 : list ascii) :
  string_of_list_ascii (l1 ++ l2)%list =
  string_of_list_ascii l1 ++ string_of_list_ascii l2.
Proof. induction l1 as [|c l1 IH]; cbn; [reflexivity | now rewrite IH]. Qed.

(** [s.strip()] is a piece of [s]. *)
Lemma strip_is_a_piece (l : list ascii) :
  exists pre post,
    l = (pre ++ rev (Client.lstrip_chars (rev (Client.lstrip_chars l))) ++ post)%list.
Proof.
  destruct (RowFacts.lstrip_suffix l) as [pre Hpre].
  destruct (RowFacts.lstrip_suffix (rev (Client.lstrip_chars l))) as [pre2 Hpre2].
  exists pre, (rev pre2).
  rewrite <- rev_app_distr, <- Hpre2, rev_involutive. exact Hpre.
Qed.

(** *** The filter *)

Section Controls.

Variables (stat_type_filter : list string) (min_confidence search_term : string).

(** The condition of the filter where no label is missing from
    [confidence_rank]. *)
Definition passes (p : PickResult) : bool :=
  existsb (String.eqb (stat_name (stat_type p))) stat_type_filter &&
  match confidence_rank (confidence p), confidence_rank min_confidence with
  | Some rank, Some least => (least <=? rank)%Z
  | _, _ => false
  end &&
  matches_search p search_term.

Lemma keeps_passes (p : PickResult) (keep : bool) :
  keeps stat_type_filter min_confidence search_term p = Some keep ->
  passes p = keep.
Proof.
  unfold keeps, passes.
  destruct (existsb _ stat_type_filter); cbn [andb]; [|congruence].
  destruct (confidence_rank (confidence p)) as [rank|]; [|discriminate].
  destruct (confidence_rank min_confidence) as [least|]; [|discriminate].
  destruct (least <=? rank)%Z; cbn [andb]; congruence.
Qed.

Lemma filtered_picks_spec (picks shown : list PickResult) :
  filtered_picks stat_type_filter min_confidence search_term picks = Some shown ->
  shown = filter passes picks.
Proof.
  revert shown. induction picks as [|p picks IH]; cbn [filtered_picks filter]; intros shown H.
  - congruence.
  - destruct (keeps _ _ _ p) as [keep|] eqn:Ek; [|discriminate].
    destruct (filtered_picks _ _ _ picks) as [rest|]; [|discriminate].
    injection H as <-. rewrite (keeps_passes p keep Ek), <- (IH rest eq_refl).
    now destruct keep.
Qed.

Lemma filtered_picks_total (picks : list PickResult) :
  (forall p, In p picks ->
     keeps stat_type_filter min_confidence search_term p <> None) ->
  filtered_picks stat_type_filter min_confidence search_term picks =
  Some (filter passes picks).
Proof.
  intros Hall.
  destruct (filtered_picks _ _ _ picks) as [shown|] eqn:E.
  - now rewrite (filtered_picks_spec picks shown E).
  - exfalso. induction picks as [|p picks IH]; cbn [filtered_picks] in E; [discriminate|].
    destruct (keeps _ _ _ p) eqn:Ek; [|now apply (Hall p (or_introl eq_refl))].
    destruct (filtered_picks _ _ _ picks); [discriminate|].
    apply IH; [|reflexivity]. intros q Hq. apply Hall. now right.
Qed.

(** What a rendered page holds. *)
Lemma rendered_inv (picks : list PickResult) (d : Dashboard) :
  render (Some picks) stat_type_filter min_confidence search_term = Rendered d ->
  shown d = filter passes picks /\
  shown d <> [] /\
  top3 d = firstn 3 (shown d) /\
  total_picks d = List.length picks /\
  total_players d = List.length (nodup string_dec (map player_handle picks)) /\
  over_count d = count_recommendation "Lean Over" (shown d) /\
  under_count d = count_recommendation "Lean Under" (shown d) /\
  stay_count d = count_recommendation "Stay Away" (shown d) /\
  avg_edge d = sum_abs_edge (shown d) / inject_Z (Z.of_nat (List.length (shown d))).
Proof.
  unfold render.
  destruct (filtered_picks _ _ _ picks) as [[|p rest]|] eqn:E; try discriminate.
  intros H. injection H as <-. cbn [shown top3 total_picks total_players over_count
    under_count stay_count avg_edge].
  rewrite <- (filtered_picks_spec picks (p :: rest) E).
  repeat (split; [reflexivity || discriminate|]). reflexivity.
Qed.

End Controls.

(** *** Picks of the engine *)

Lemma confidence_rank_options (label : string) :
  In label ["Low"; "Medium"; "High"] -> exists rank, confidence_rank label = Some rank.
Proof.
  intros [<- | [<- | [<- | []]]]; cbn; eauto.
Qed.

Lemma engine_confidence (players : list Player) (risk_mode : RiskMode) (p : PickResult) :
  In p (build_picks_of_players players risk_mode) ->
  In (confidence p) ["Low"; "Medium"; "High"].
Proof.
  intros H. apply in_build_picks in H. destruct H as [player [st [_ ->]]].
  cbn [confidence make_pick].
  destruct (confidence_cases
              (_edge_score (_projection_for_stat player st) (_line_for_stat player st)
                 (_spread_for_stat player st))) as [[_ ->] | [[_ ->] | [_ ->]]];
    cbn; auto.
Qed.

Lemma engine_recommendation (players : list Player) (risk_mode : RiskMode) (p : PickResult) :
  In p (build_picks_of_players players risk_mode) ->
  In (recommendation p) ["Lean Over"; "Lean Under"; "Stay Away"].
Proof.
  intros H. apply in_build_picks in H. destruct H as [player [st [_ ->]]].
  cbn [recommendation make_pick].
  destruct (recommendation_cases
              (_edge_score (_projection_for_stat player st) (_line_for_stat player st)
                 (_spread_for_stat player st)) risk_mode st) as [[_ ->] | [[_ ->] | [_ ->]]];
    cbn; auto.
Qed.

Lemma engine_keeps (players : list Player) (risk_mode : RiskMode)
    (stat_type_filter : list string) (min_confidence search_term : string)
    (p : PickResult) :
  In min_confidence ["Low"; "Medium"; "High"] ->
  In p (build_picks_of_players players risk_mode) ->
  keeps stat_type_filter min_confidence search_term p <> None.
Proof.
  intros Hmin Hp. unfold keeps.
  destruct (existsb _ stat_type_filter); [|discriminate].
  destruct (confidence_rank_options _ (engine_confidence players risk_mode p Hp)) as [rank ->].
  destruct (confidence_rank_options _ Hmin) as [least ->].
  destruct (least <=? rank)%Z; discriminate.
Qed.

Lemma strongly_sorted_filter {A : Type} (R : A -> A -> Prop) (f : A -> bool) (l : list A) :
  StronglySorted R l -> StronglySorted R (filter f l).
Proof.
  induction 1 as [|x l Hs IH Hall]; cbn; [constructor|].
  destruct (f x); [|exact IH]. constructor; [exact IH|].
  rewrite Forall_forall in *. intros y Hy. apply filter_In in Hy. now apply Hall.
Qed.


Lemma count_recommendation_partition (l : list PickResult) :
  (forall p, In p l -> In (recommendation p) ["Lean Over"; "Lean Under"; "Stay Away"]) ->
  (count_recommendation "Lean Over" l + count_recommendation "Lean Under" l +
   count_recommendation "Stay Away" l = List.length l)%nat.
Proof.
  unfold count_recommendation.
  induction l as [|p l IH]; intros Hall; [reflexivity|].
  assert (IH' := IH (fun q Hq => Hall q (or_intror Hq))).
  cbn [filter List.length].
  destruct (Hall p (or_introl eq_refl)) as [<- | [<- | [<- | []]]];
    cbn [String.eqb Ascii.eqb Bool.eqb List.length]; lia.
Qed.

Lemma filter_all {A : Type} (f : A -> bool) (l : list A) :
  (forall x, In x l -> f x = true) -> filter f l = l.
Proof.
  induction l as [|x l IH]; intros H; cbn; [reflexivity|].
  rewrite (H x (or_introl eq_refl)), IH; [reflexivity|].
  intros y Hy. apply H. now right.
Qed.

Lemma filter_none {A : Type} (f : A -> bool) (l : list A) :
  (forall x, In x l -> f x = false) -> filter f l = [].
Proof.
  induction l as [|x l IH]; intros H; cbn; [reflexivity|].
  rewrite (H x (or_introl eq_refl)). apply IH.
  intros y Hy. apply H. now right.
Qed.

Lemma engine_sorted (players : list Player) (risk_mode : RiskMode) :
  StronglySorted (desc_by (fun p => Py.abs (edge p)))
                 (build_picks_of_players players risk_mode).
Proof. apply sort_desc_strongly_sorted. Qed.

Lemma engine_handles (players : list Player) (risk_mode : RiskMode) (h : string) :
  In h (map player_handle (build_picks_of_players players risk_mode)) <->
  In h (map p_handle players).
Proof.
  rewrite !in_map_iff. split.
  - intros [p [<- Hp]]. apply in_build_picks in Hp.
    destruct Hp as [player [st [Hin ->]]]. now exists player.
  - intros [player [<- Hin]]. exists (make_pick risk_mode player Kills).
    split; [reflexivity|]. apply in_build_picks. eauto.
Qed.

Lemma nodup_length_same {A : Type} (dec : forall x y : A, {x = y} + {x <> y})
    (l l' : list A) :
  (forall x, In x l <-> In x l') ->
  List.length (nodup dec l) = List.length (nodup dec l').
Proof.
  intros H. apply Nat.le_antisymm;
    (apply NoDup_incl_length; [apply NoDup_nodup|]);
    intros x Hx; apply nodup_In; apply nodup_In in Hx; now apply H.
Qed.


Lemma engine_picks_nonempty (players : list Player) (risk_mode : RiskMode) :
  players <> [] ->
  exists p rest, build_picks_of_players players risk_mode = p :: rest.
Proof.
  intros Hne.
  assert (Hlen : List.length (build_picks_of_players players risk_mode) =
                 (2 * List.length players)%nat).
  { unfold build_picks_of_players.
    now rewrite sort_desc_length, picks_in_loop_order_length. }
  destruct (build_picks_of_players players risk_mode) as [|p rest]; [|eauto].
  destruct players; [congruence | discriminate].
Qed.

(** *** Properties of the page *)

(** X20: the filter of the page never raises on the picks of the engine while
    the minimum confidence is one of the three options of the select box:
    every confidence label the engine writes is a key of [confidence_rank].
    The picks shown are then the picks that pass the three tests, in the
    order of the engine. *)
Theorem filter_never_raises_on_engine_picks
    (players : list Player) (risk_mode : RiskMode)
    (stat_type_filter : list string) (min_confidence search_term : string) :
  In min_confidence ["Low"; "Medium"; "High"] ->
  filtered_picks stat_type_filter min_confidence search_term
    (build_picks_of_players players risk_mode) =
  Some (filter (passes stat_type_filter min_confidence search_term)
          (build_picks_of_players players risk_mode)) /\
  render (Some (build_picks_of_players players risk_mode))
    stat_type_filter min_confidence search_term <> Uncaught.
Proof.
  intros Hmin.
  assert (H : filtered_picks stat_type_filter min_confidence search_term
                (build_picks_of_players players risk_mode) =
              Some (filter (passes stat_type_filter min_confidence search_term)
                      (build_picks_of_players players risk_mode))).
  { apply filtered_picks_total. intros p Hp.
    now apply (engine_keeps players risk_mode). }
  split; [exact H|]. unfold render. rewrite H.
  destruct (filter _ _); discriminate.
Qed.

Lemma filter_never_raises_on_engine_picks_witness :
  render (Some (build_picks_of_players example_players Safe))
    ["kills"] "Medium" "ten" <> Uncaught.
Proof.
  refine (proj2 (filter_never_raises_on_engine_picks
                   example_players Safe ["kills"] "Medium" "ten" _)).
  cbn. auto.
Defined.

(** X21: the picks shown keep the ranking of the engine (largest absolute edge
    first), so the top three are the first picks that pass the filters and
    no other pick shown has a larger absolute edge than one of them. *)
Theorem top3_are_the_strongest_shown
    (players : list Player) (risk_mode : RiskMode)
    (stat_type_filter : list string) (min_confidence search_term : string)
    (d : Dashboard) :
  render (Some (build_picks_of_players players risk_mode))
    stat_type_filter min_confidence search_term = Rendered d ->
  (forall p, In p (shown d) <->
     In p (build_picks_of_players players risk_mode) /\
     passes stat_type_filter min_confidence search_term p = true) /\
  StronglySorted (desc_by (fun p => Py.abs (edge p))) (shown d) /\
  top3 d = firstn 3 (shown d) /\
  (1 <= List.length (top3 d) <= 3)%nat /\
  (forall a b, In a (top3 d) -> In b (skipn 3 (shown d)) ->
     Py.abs (edge b) <= Py.abs (edge a)).
Proof.
  intros H. apply rendered_inv in H.
  destruct H as [Hshown [Hne [Htop _]]].
  assert (Hsorted : StronglySorted (desc_by (fun p => Py.abs (edge p))) (shown d)).
  { rewrite Hshown. apply strongly_sorted_filter, engine_sorted. }
  refine (conj _ (conj Hsorted (conj Htop (conj _ _)))).
  - intros p. rewrite Hshown. apply filter_In.
  - rewrite Htop, length_firstn. destruct (shown d) as [|p l]; [congruence|].
    cbn [List.length]. lia.
  - rewrite Htop. intros a b Ha Hb.
    rewrite <- (firstn_skipn 3 (shown d)) in Hsorted.
    apply FrameFacts.strongly_sorted_app in Hsorted.
    exact (proj2 Hsorted a b Ha Hb).
Qed.

Lemma top3_are_the_strongest_shown_witness :
  exists d,
    render (Some (build_picks_of_players example_players Standard))
      ["kills"; "assists"] "Low" "" = Rendered d /\
    top3 d = firstn 3 (shown d).
Proof.
  eexists. split; [reflexivity|].
  refine (proj1 (proj2 (proj2 (top3_are_the_strongest_shown
            example_players Standard ["kills"; "assists"] "Low" "" _ eq_refl)))).
Defined.


(** X22: the three counters of the metric cards add up to the number of picks
    shown: every pick of the engine carries one of the three
    recommendations, so none is left uncounted and none is counted twice. *)
Theorem metric_counts_partition
    (players : list Player) (risk_mode : RiskMode)
    (stat_type_filter : list string) (min_confidence search_term : string)
    (d : Dashboard) :
  render (Some (build_picks_of_players players risk_mode))
    stat_type_filter min_confidence search_term = Rendered d ->
  (over_count d + under_count d + stay_count d = List.length (shown d))%nat /\
  (1 <= List.length (shown d) <= total_picks d)%nat.
Proof.
  intros H. apply rendered_inv in H.
  destruct H as [Hshown [Hne [_ [Htotal [_ [-> [-> [-> _]]]]]]]].
  split.
  - apply count_recommendation_partition. intros p Hp.
    rewrite Hshown in Hp. apply filter_In in Hp.
    exact (engine_recommendation players risk_mode p (proj1 Hp)).
  - split.
    + destruct (shown d); [congruence | cbn; lia].
    + rewrite Htotal, Hshown. apply filter_length_le.
Qed.

Lemma metric_counts_partition_witness :
  exists d,
    render (Some (build_picks_of_players example_players Standard))
      ["kills"; "assists"] "Low" "" = Rendered d /\
    (over_count d + under_count d + stay_count d = List.length (shown d))%nat.
Proof.
  eexists. split; [reflexivity|].
  refine (proj1 (metric_counts_partition
            example_players Standard ["kills"; "assists"] "Low" "" _ eq_refl)).
Defined.

(** X23: the badges of the header: the number of picks is twice the number of
    players, and the number of players of the pool is the number of
    distinct handles, at most the number of players. *)
Theorem pool_badges
    (players : list Player) (risk_mode : RiskMode)
    (stat_type_filter : list string) (min_confidence search_term : string)
    (d : Dashboard) :
  render (Some (build_picks_of_players players risk_mode))
    stat_type_filter min_confidence search_term = Rendered d ->
  total_picks d = (2 * List.length players)%nat /\
  total_players d = List.length (nodup string_dec (map p_handle players)) /\
  (1 <= total_players d <= List.length players)%nat.
Proof.
  intros H. apply rendered_inv in H.
  destruct H as [Hshown [Hne [_ [Htotal [Hplayers _]]]]].
  assert (Hpool : total_players d =
                  List.length (nodup string_dec (map p_handle players))).
  { rewrite Hplayers. apply nodup_length_same. apply engine_handles. }
  refine (conj _ (conj Hpool (conj _ _))).
  - rewrite Htotal. unfold build_picks_of_players.
    now rewrite sort_desc_length, picks_in_loop_order_length.
  - rewrite Hpool. destruct players as [|player players].
    + exfalso. apply Hne. now rewrite Hshown.
    + assert (Hin : In (p_handle player)
                      (nodup string_dec (map p_handle (player :: players))))
        by (apply nodup_In; now left).
      destruct (nodup string_dec (map p_handle (player :: players)));
        [destruct Hin | cbn; lia].
  - rewrite Hpool, <- (length_map p_handle players).
    apply NoDup_incl_length; [apply NoDup_nodup|].
    intros h Hh. now apply nodup_In in Hh.
Qed.

Lemma pool_badges_witness :
  exists d,
    render (Some (build_picks_of_players example_players Standard))
      ["kills"; "assists"] "Low" "" = Rendered d /\
    total_picks d = 4%nat.
Proof.
  eexists. split; [reflexivity|].
  refine (proj1 (pool_badges
            example_players Standard ["kills"; "assists"] "Low" "" _ eq_refl)).
Defined.

(** X25: with the controls as the page opens them (both categories, minimum
    confidence "Low") and a blank search box, nothing is filtered away:
    every pick of the engine is shown, in the order of the engine. *)
Theorem default_controls_show_everything
    (players : list Player) (risk_mode : RiskMode) (search_term : string) :
  players <> [] ->
  Client.strip search_term = "" ->
  exists d,
    render (Some (build_picks_of_players players risk_mode))
      ["kills"; "assists"] "Low" search_term = Rendered d /\
    shown d = build_picks_of_players players risk_mode.
Proof.
  intros Hne Hblank.
  assert (Hall : filter (passes ["kills"; "assists"] "Low" search_term)
                   (build_picks_of_players players risk_mode) =
                 build_picks_of_players players risk_mode).
  { apply filter_all. intros p Hp. unfold passes, matches_search.
    rewrite Hblank. cbn [Client.lower list_ascii_of_string map string_of_list_ascii
                         String.eqb].
    destruct (confidence_rank_options _ (engine_confidence players risk_mode p Hp))
      as [rank Hrank].
    rewrite Hrank.
    assert (Hpos : (0 <= rank)%Z).
    { revert Hrank. unfold confidence_rank.
      repeat (match goal with |- context [if ?b then _ else _] => destruct b end);
        intros [= <-]; lia. }
    cbn [confidence_rank String.eqb Ascii.eqb Bool.eqb].
    apply Z.leb_le in Hpos. rewrite Hpos.
    destruct (stat_type p); reflexivity. }
  destruct (engine_picks_nonempty players risk_mode Hne) as [p [rest Hpicks]].
  unfold render.
  rewrite (filtered_picks_total ["kills"; "assists"] "Low" search_term
             (build_picks_of_players players risk_mode)
             (fun q Hq => engine_keeps players risk_mode _ "Low" _ q
                            (or_introl eq_refl) Hq)).
  rewrite Hall, Hpicks. eexists. split; [reflexivity|]. reflexivity.
Qed.

Lemma default_controls_show_everything_witness :
  exists d,
    render (Some (build_picks_of_players example_players Yolo))
      ["kills"; "assists"] "Low" "  " = Rendered d /\
    shown d = build_picks_of_players example_players Yolo.
Proof.
  apply (default_controls_show_everything example_players Yolo "  ");
    [discriminate | reflexivity].
Defined.


(** X26: with the minimum confidence "High" every pick shown has the label
    "High" and is a lean, so the "Stay away" card shows 0. *)
Theorem high_filter_shows_only_leans
    (players : list Player) (risk_mode : RiskMode)
    (stat_type_filter : list string) (search_term : string) (d : Dashboard) :
  render (Some (build_picks_of_players players risk_mode))
    stat_type_filter "High" search_term = Rendered d ->
  stay_count d = 0%nat /\
  forall p, In p (shown d) ->
    confidence p = "High" /\
    (recommendation p = "Lean Over" \/ recommendation p = "Lean Under").
Proof.
  intros H. apply rendered_inv in H.
  destruct H as [Hshown [_ [_ [_ [_ [_ [_ [Hstay _]]]]]]]].
  assert (Hall : forall p, In p (shown d) ->
            confidence p = "High" /\
            (recommendation p = "Lean Over" \/ recommendation p = "Lean Under")).
  { intros p Hp. rewrite Hshown in Hp. apply filter_In in Hp.
    destruct Hp as [Hin Hpass]. apply in_build_picks in Hin.
    destruct Hin as [player [st [_ ->]]].
    unfold passes in Hpass. cbn [confidence recommendation make_pick] in *.
    set (e := _edge_score (_projection_for_stat player st) (_line_for_stat player st)
                (_spread_for_stat player st)) in *.
    apply andb_prop in Hpass. destruct Hpass as [Hpass _].
    apply andb_prop in Hpass. destruct Hpass as [_ Hrank].
    destruct (confidence_cases e) as [[Hbig Hc] | [[_ Hc] | [_ Hc]]];
      rewrite Hc in Hrank |- *; try discriminate Hrank.
    split; [reflexivity|].
    destruct (recommendation_cases e risk_mode st) as [[_ Hr] | [[_ Hr] | [Hmid _]]];
      [now left | now right | exfalso].
    cbv zeta in Hmid.
    assert (Hthr : threshold risk_mode st <= 1)
      by (destruct risk_mode, st; discriminate).
    assert (Habs : Qabs e < threshold risk_mode st).
    { apply Qabs_Qlt_condition. exact Hmid. }
    generalize dependent (Qabs e). generalize dependent (threshold risk_mode st).
    intros. lra. }
  split; [|exact Hall].
  rewrite Hstay. unfold count_recommendation.
  rewrite filter_none; [reflexivity|].
  intros p Hp. destruct (Hall p Hp) as [_ [-> | ->]]; reflexivity.
Qed.

Lemma high_filter_shows_only_leans_witness :
  exists d,
    render (Some (build_picks_of_players
                    [mkPlayer "a" "Ace" "T" "duelist" 30 2 1.6 0.9 20 0.9] Standard))
      ["kills"; "assists"] "High" "" = Rendered d /\
    stay_count d = 0%nat.
Proof.
  eexists. split; [reflexivity|].
  refine (proj1 (high_filter_shows_only_leans
            [mkPlayer "a" "Ace" "T" "duelist" 30 2 1.6 0.9 20 0.9] Standard
            ["kills"; "assists"] "" _ eq_refl)).
Defined.

(** X27: raising the minimum confidence only removes picks: whatever is shown
    under a higher minimum is shown under a lower one, the other controls
    being the same. *)
Theorem raising_min_confidence_only_removes
    (picks : list PickResult) (stat_type_filter : list string)
    (lower higher search_term : string) (rank_lower rank_higher : Z)
    (shown_lower shown_higher : list PickResult) :
  confidence_rank lower = Some rank_lower ->
  confidence_rank higher = Some rank_higher ->
  (rank_lower <= rank_higher)%Z ->
  filtered_picks stat_type_filter lower search_term picks = Some shown_lower ->
  filtered_picks stat_type_filter higher search_term picks = Some shown_higher ->
  incl shown_higher shown_lower.
Proof.
  intros Hl Hh Hle H1 H2.
  apply filtered_picks_spec in H1. apply filtered_picks_spec in H2. subst.
  intros p Hp. apply filter_In in Hp. apply filter_In.
  destruct Hp as [Hin Hpass]. split; [exact Hin|].
  unfold passes in *. rewrite Hl. rewrite Hh in Hpass.
  destruct (existsb _ stat_type_filter); [|discriminate].
  destruct (confidence_rank (confidence p)) as [rank|]; [|discriminate].
  cbn [andb] in *. apply andb_prop in Hpass. destruct Hpass as [Hrank ->].
  apply Z.leb_le in Hrank.
  assert (Hrank' : (rank_lower <=? rank)%Z = true) by (apply Z.leb_le; lia).
  now rewrite Hrank'.
Qed.

Lemma raising_min_confidence_only_removes_witness :
  incl (filter (passes ["kills"; "assists"] "High" "")
          (build_picks_of_players example_players Standard))
       (filter (passes ["kills"; "assists"] "Medium" "")
          (build_picks_of_players example_players Standard)).
Proof.
  refine (raising_min_confidence_only_removes
            (build_picks_of_players example_players Standard)
            ["kills"; "assists"] "Medium" "High" "" 1 2 _ _ _ _ _ _ _).
  - reflexivity.
  - reflexivity.
  - lia.
  - apply filtered_picks_total. intros p Hp.
    exact (engine_keeps example_players Standard ["kills"; "assists"] "Medium" "" p
             (or_intror (or_introl eq_refl)) Hp).
  - apply filtered_picks_total. intros p Hp.
    exact (engine_keeps example_players Standard ["kills"; "assists"] "High" "" p
             (or_intror (or_intror (or_introl eq_refl))) Hp).
Defined.

(** X28: the search box is a substring test that ignores case and surrounding
    blanks: a pick matches exactly when the term, stripped and lowered, is
    a piece of the lowered handle. A blank term is a piece of every
    handle. *)
Theorem search_is_substring_test (p : PickResult) (term : string) :
  matches_search p term = true <->
  exists pre post,
    Client.lower (player_handle p) =
    pre ++ Client.lower (Client.strip term) ++ post.
Proof.
  unfold matches_search.
  destruct (Client.lower (Client.strip term) =? "") eqn:E.
  - apply String.eqb_eq in E. rewrite E. split; [intros _|reflexivity].
    now exists "", (Client.lower (player_handle p)).
  - apply contains_spec.
Qed.

(** X29: searching for a handle as it is written finds the picks of that
    handle. *)
Theorem search_finds_own_handle (p : PickResult) :
  matches_search p (player_handle p) = true.
Proof.
  unfold matches_search.
  destruct (Client.lower (Client.strip (player_handle p)) =? ""); [reflexivity|].
  apply contains_spec.
  unfold Client.lower, Client.strip. rewrite list_ascii_of_string_of_list_ascii.
  destruct (strip_is_a_piece (list_ascii_of_string (player_handle p)))
    as [pre [post Hpiece]].
  exists (string_of_list_ascii (map Client.lower_char pre)),
         (string_of_list_ascii (map Client.lower_char post)).
  rewrite <- !string_of_list_ascii_app, <- !map_app. now rewrite <- Hpiece.
Qed.

(** X30: a selection of stat types that holds neither "kills" nor "assists"
    (only "headshot", or nothing) shows no pick at all: the page stops at
    its warning, whatever the picks and the other controls are. *)
Theorem unsupported_stat_filter_shows_nothing
    (picks : list PickResult) (stat_type_filter : list string)
    (min_confidence search_term : string) :
  ~ In "kills" stat_type_filter ->
  ~ In "assists" stat_type_filter ->
  render (Some picks) stat_type_filter min_confidence search_term = NoMatch.
Proof.
  intros Hk Ha.
  assert (Hkeeps : forall p,
            keeps stat_type_filter min_confidence search_term p = Some false).
  { intros p. unfold keeps.
    destruct (existsb _ stat_type_filter) eqn:E; [exfalso | reflexivity].
    apply existsb_exists in E. destruct E as [s [Hs Heq]].
    apply String.eqb_eq in Heq. subst s.
    destruct (stat_type p); [now apply Hk | now apply Ha]. }
  assert (H : filtered_picks stat_type_filter min_confidence search_term picks = Some []).
  { induction picks as [|p picks IH]; cbn [filtered_picks]; [reflexivity|].
    now rewrite Hkeeps, IH. }
  unfold render. now rewrite H.
Qed.

Lemma unsupported_stat_filter_shows_nothing_witness :
  render (Some (build_picks_of_players example_players Standard))
    ["headshot"] "Low" "" = NoMatch.
Proof.
  apply unsupported_stat_filter_shows_nothing;
    intros [H | []]; discriminate H.
Defined.

End AppFacts.
